(** * A coloured Game of Life on the GPU: the widget script and its shaders

    Shallow embedding of [src/widget.js].  The script holds two WGSL shader
    modules as text (the cell shader that draws the grid and the simulation
    shader that computes one generation) and a JavaScript driver that seeds
    one of two storage buffers, builds two bind groups over them and then
    alternates a compute pass and a render pass on every animation frame.

    Conventions of the embedding:
    - a [u32] is a [Z] in [0, 2^32); every addition, subtraction and
      multiplication of the shaders is followed by its wrap-around [u32];
    - a storage buffer ([array<u32>]) is a [list Z], read by index and
      updated in place with stdpp's list insert;
    - a JavaScript number or an [f32] is the rational [Q] it denotes; every
      f32 operation of the cell shader is followed by its rounding [f32] to
      binary32 (to nearest, ties to even, as IEEE 754 has it: WGSL allows
      a less accurate division, the model takes the correctly rounded one);
    - the GPU runs the invocations of a dispatch one after the other over the
      bound buffers, each invocation reading the buffers as they are at that
      moment, so that a bind group aliasing its input and its output would
      show; the order chosen does not matter ([schedule_irrelevant]). *)

From Stdlib Require Import ZArith QArith Qround Qabs Qpower Qreduction Qcanon.
From Stdlib Require Import Lia Lqa List Bool.
From stdpp Require Import base list list_numbers.

Local Open Scope Z_scope.

(** ** Machine integers and buffers *)

(** Wrap-around of 32-bit unsigned arithmetic. *)
Definition u32 (z : Z) : Z := z mod 2 ^ 32.

(** [vec2u] / an integer-valued [vec2f]. *)
Record vec2 := Vec2 { vx : Z; vy : Z }.

(** [vec4f]. *)
Record vec4 := Vec4 { px : Q; py : Q; pz : Q; pw : Q }.

(** [buffer[i]]: all indices computed by the shaders are within the buffers
    (see [cellIndex_range]); outside, the model reads 0. *)
Definition readBuf (buffer : list Z) (i : Z) : Z :=
  default 0 (buffer !! Z.to_nat i).

(** Strict comparison of two rationals, as a boolean. *)
Definition Qlt_bool (a b : Q) : bool := negb (Qle_bool b a).

(** ** Binary32 arithmetic *)

(** Exponent of the binade of a positive rational: the [e] with
    2^e <= q < 2^(e+1). *)
Definition ilog2 (q : Q) : Z :=
  let e := Z.log2 (Qnum q) - Z.log2 (Zpos (Qden q)) in
  if Qle_bool (2 ^ e)%Q q then e else e - 1.

(** Rounding to the nearest integer, ties to the even one. *)
Definition roundEven (m : Q) : Z :=
  let f := Qfloor m in
  match (m - inject_Z f ?= 1 # 2)%Q with
  | Lt => f
  | Gt => f + 1
  | Eq => if Z.even f then f else f + 1
  end.

(** Rounding of a rational to binary32, to nearest, ties to even: 24
    significant bits, exponents from -126 up (below, the spacing of the
    subnormal numbers).  Overflow, infinities and NaN are not modelled: on
    a grid of positive side the cell shader divides by no zero and its
    magnitudes stay far below the threshold 2^128. *)
Definition f32 (q : Q) : Q :=
  if Qeq_bool q 0 then 0%Q
  else
    let e := Z.max (ilog2 (Qabs q)) (-126) in
    let ulp := (2 ^ (e - 23))%Q in
    Qred (inject_Z (roundEven (q / ulp)) * ulp)%Q.

(** The f32 operations of WGSL. *)
Definition fadd (a b : Q) : Q := f32 (a + b)%Q.
Definition fsub (a b : Q) : Q := f32 (a - b)%Q.
Definition fmul (a b : Q) : Q := f32 (a * b)%Q.
Definition fdiv (a b : Q) : Q := f32 (a / b)%Q.

(** [floor] and [trunc] of an f32 are integers that an f32 holds. *)
Definition ffloor (a : Q) : Q := inject_Z (Qfloor a).
Definition ftrunc (a : Q) : Q :=
  inject_Z (if Qle_bool 0 a then Qfloor a else Qceiling a).

(** [a % b] on floats: [a - b * trunc(a / b)]. *)
Definition fmod (a b : Q) : Q := fsub a (fmul b (ftrunc (fdiv a b))).

(** [u32(e)] of a float: truncation, clamped to the range of [u32]. *)
Definition toU32 (a : Q) : Z := Z.max 0 (Z.min (2 ^ 32 - 1) (Qfloor a)).

(** Half a unit in the last place of 1, relative to 1, and half the
    spacing of the subnormal numbers. *)
Definition u24 : Q := 1 # 16777216.
Definition tiny : Q := (2 ^ (-150))%Q.

(** ** Constants of the script *)

Module Const.
Definition GRID_SIZE : Z := 512.
Definition WORKGROUP_SIZE : Z := 8.
Definition UPDATE_INTERVAL : Z := 200.
End Const.

(** The literal [0.7], as the binary64 number it denotes. *)
Definition lit_0_7 : Q := 3152519739159347 # 4503599627370496.

(** [vertices]: the twelve floats of the [Float32Array], each the binary32
    nearest to its literal, read two by two by the vertex stage
    ([arrayStride: 8], [float32x2]). *)
Definition vertices : list (Q * Q) :=
  [ (f32 (- lit_0_7), f32 (- lit_0_7)); (f32 lit_0_7, f32 (- lit_0_7));
    (f32 lit_0_7, f32 lit_0_7);
    (f32 (- lit_0_7), f32 (- lit_0_7)); (f32 lit_0_7, f32 lit_0_7);
    (f32 (- lit_0_7), f32 lit_0_7) ]%Q.

(** ** The simulation shader *)

Module SimulationShader.

(** [fn cellIndex(cell: vec2u) -> u32].  [grid] holds integers, which
    [u32(grid.x)] gives back. *)
Definition cellIndex (grid : vec2) (cell : vec2) : Z :=
  u32 (u32 ((vy cell mod vy grid) * vx grid) + (vx cell mod vx grid)).

(** [fn cellColor(x: u32, y: u32) -> u32]. *)
Definition cellColor (grid : vec2) (cellStateIn : list Z) (x y : Z) : Z :=
  readBuf cellStateIn (cellIndex grid (Vec2 x y)).

(** [fn averageColor(colors: array<u32, 8>) -> u32]. *)
Definition averageColor (colors : list Z) : Z :=
  let '(r, g, b) :=
    fold_left
      (fun '(r, g, b) i =>
         let c := nth i colors 0 in
         (u32 (r + Z.land c 255),
          u32 (g + Z.land c (Z.shiftl 255 8)),
          u32 (b + Z.land c (Z.shiftl 255 16))))
      (seq 0 8) (0, 0, 0) in
  u32 (u32 (Z.land (u32 (r + 2) / 3) 255
            + Z.land (u32 (g + Z.shiftl 2 8) / 3) (Z.shiftl 255 8))
       + Z.land (u32 (b + Z.shiftl 2 16) / 3) (Z.shiftl 255 16)).

(** [fn countNonZero(colors: array<u32, 8>) -> u32]. *)
Definition countNonZero (colors : list Z) : Z :=
  fold_left
    (fun count i => if nth i colors 0 =? 0 then count else u32 (count + 1))
    (seq 0 8) 0.

(** The array [neighbourColors] built at the start of [computeMain], in
    the order of the source. *)
Definition neighbourColors (grid : vec2) (cellStateIn : list Z)
    (cell : vec2) : list Z :=
  let x := vx cell in
  let y := vy cell in
  [ cellColor grid cellStateIn (u32 (x + 1)) (u32 (y + 1));
    cellColor grid cellStateIn (u32 (x + 1)) y;
    cellColor grid cellStateIn (u32 (x + 1)) (u32 (y - 1));
    cellColor grid cellStateIn x (u32 (y - 1));
    cellColor grid cellStateIn (u32 (x - 1)) (u32 (y - 1));
    cellColor grid cellStateIn (u32 (x - 1)) y;
    cellColor grid cellStateIn (u32 (x - 1)) (u32 (y + 1));
    cellColor grid cellStateIn x (u32 (y + 1)) ].

(** [fn computeMain(@builtin(global_invocation_id) cell: vec3u)]: one
    invocation, returning the output buffer after its single store.  A
    WGSL [switch] does not fall through. *)
Definition computeMain (grid : vec2) (cellStateIn cellStateOut : list Z)
    (cell : vec2) : list Z :=
  let neighbours := neighbourColors grid cellStateIn cell in
  let i := cellIndex grid cell in
  let count := countNonZero neighbours in
  if count =? 2 then
    <[Z.to_nat i := readBuf cellStateIn i]> cellStateOut
  else if count =? 3 then
    <[Z.to_nat i := averageColor neighbours]> cellStateOut
  else
    <[Z.to_nat i := 0]> cellStateOut.

End SimulationShader.

(** ** The cell shader *)

Module CellShader.

Record VertexInput := { pos : Q * Q; instance : Z }.
Record VertexOutput := { outPos : vec4; outCell : Q * Q }.

(** The uniform [grid: vec2f], as the cell shader reads it: the
    [Float32Array] written from [uniformArray]. *)
Definition gridF (grid : vec2) : Q * Q :=
  (f32 (inject_Z (vx grid)), f32 (inject_Z (vy grid))).

(** [let i = f32(input.instance);
     let cell = vec2f(i % grid.x, floor(i / grid.x))]. *)
Definition cellOf (grid : vec2) (instance : Z) : Q * Q :=
  let i := f32 (inject_Z instance) in
  (fmod i (fst (gridF grid)), ffloor (fdiv i (fst (gridF grid)))).

(** [let cellOffset = cell * 2 / grid;
     let gridPos = (input.pos + 1) / grid - 1 + cellOffset]. *)
Definition gridPos (grid : vec2) (input : VertexInput) : Q * Q :=
  let cell := cellOf grid (instance input) in
  let cellOffset :=
    (fdiv (fmul (fst cell) 2) (fst (gridF grid)),
     fdiv (fmul (snd cell) 2) (snd (gridF grid))) in
  (fadd (fsub (fdiv (fadd (fst (pos input)) 1) (fst (gridF grid))) 1)
     (fst cellOffset),
   fadd (fsub (fdiv (fadd (snd (pos input)) 1) (snd (gridF grid))) 1)
     (snd cellOffset)).

(** [fn vertexMain(input: VertexInput) -> VertexOutput]. *)
Definition vertexMain (grid : vec2) (cellState : list Z)
    (input : VertexInput) : VertexOutput :=
  let p := gridPos grid input in
  let state := f32 (inject_Z (readBuf cellState (instance input))) in
  {| outPos := Vec4 (fmul (fst p) state) (fmul (snd p) state)
                 (fmul 0 state) (fmul 1 state);
     outCell := cellOf grid (instance input) |}.

(** [fn cellIndex(cell: vec2f) -> u32] of the cell shader. *)
Definition cellIndex (grid : vec2) (cell : Q * Q) : Z :=
  toU32 (fadd (fmul (fmod (snd cell) (snd (gridF grid))) (fst (gridF grid)))
           (fmod (fst cell) (fst (gridF grid)))).

(** [fn fragmentMain(cell: vec2f) -> vec4f]. *)
Definition fragmentMain (grid : vec2) (cellState : list Z)
    (cell : Q * Q) : vec4 :=
  let color := readBuf cellState (cellIndex grid cell) in
  Vec4 (fdiv (f32 (inject_Z (Z.land color 255))) 255)
       (fdiv (f32 (inject_Z (Z.shiftr (Z.land color (Z.shiftl 255 8)) 8))) 255)
       (fdiv (f32 (inject_Z (Z.shiftr (Z.land color (Z.shiftl 255 16)) 16))) 255)
       1.

End CellShader.

(** ** The driver script *)

(** The two storage buffers [cellStateStorage[0]] ("Cell state A") and
    [cellStateStorage[1]] ("Cell state B"). *)
Record storage := { bufA : list Z; bufB : list Z }.

Definition getBuf (s : storage) (k : Z) : list Z :=
  if k =? 0 then bufA s else bufB s.

Definition setBuf (s : storage) (k : Z) (b : list Z) : storage :=
  if k =? 0 then {| bufA := b; bufB := bufB s |}
  else {| bufA := bufA s; bufB := b |}.

(** A bind group of [bindGroupLayout]: binding 0 is the grid uniform in
    both groups; [binding1] (read-only storage) and [binding2] (storage)
    name the buffer they point to by its index in [cellStateStorage]. *)
Record bindGroup := { binding1 : Z; binding2 : Z }.

(** [bindGroups]: "Cell renderer bind group A" and "... B". *)
Definition bindGroups : list bindGroup :=
  [ {| binding1 := 0; binding2 := 1 |};
    {| binding1 := 1; binding2 := 0 |} ].

(** [bindGroups[k]]. *)
Definition bindGroupAt (k : Z) : bindGroup :=
  nth (Z.to_nat k) bindGroups {| binding1 := 0; binding2 := 1 |}.

(** The commands an encoder records. *)
Inductive command :=
| ComputePass (group : bindGroup) (countX countY : Z)
| RenderPass (group : bindGroup) (vertexCount instanceCount : Z).

(** What one render pass draws: for every instance the six vertices that
    [vertexMain] outputs and the colour [fragmentMain] gives the cell. *)
Record quad := { corners : list vec4; colour : vec4 }.
Definition frame := list quad.

(** The literals [0.04], [0.08] and [0.12] of the seeding loop, as the
    binary64 numbers they denote. *)
Definition lit_0_04 : Q := 5764607523034235 # 144115188075855872.
Definition lit_0_08 : Q := 5764607523034235 # 72057594037927936.
Definition lit_0_12 : Q := 1080863910568919 # 9007199254740992.

(** The conditional expression stored in [cellStateArray[i]]; the store
    into the [Uint32Array] converts to a [u32]. *)
Definition seedCell (random : Q) : Z :=
  u32 (if Qlt_bool random lit_0_04 then 255
       else if Qlt_bool random lit_0_08 then Z.shiftl 255 8
       else if Qlt_bool random lit_0_12 then Z.shiftl 255 16
       else 0).

(** The state of the page: the step counter, the two buffers on the device
    and the frames presented so far. *)
Record world := { step : Z; device : storage; presented : list frame }.

Section Driver.

Variables GRID_SIZE WORKGROUP_SIZE : Z.

(** [uniformArray], the contents of the uniform buffer. *)
Definition uniformArray : vec2 := Vec2 GRID_SIZE GRID_SIZE.

(** The seeding loop over [cellStateArray], a zero-filled
    [Uint32Array(GRID_SIZE * GRID_SIZE)]; [random i] is what the call of
    [Math.random()] in iteration [i] returns. *)
Definition cellStateArray (random : nat -> Q) : list Z :=
  let zeros := replicate (Z.to_nat (GRID_SIZE * GRID_SIZE)) 0 in
  fold_left (fun array i => <[i := seedCell (random i)]> array)
    (seq 0 (length zeros)) zeros.

(** The device after set-up: both buffers are created (zero-filled) with
    the byte length of [cellStateArray], and the single [writeBuffer]
    copies the seeded array into [cellStateStorage[0]]. *)
Definition initialStorage (random : nat -> Q) : storage :=
  let created :=
    {| bufA := replicate (Z.to_nat (GRID_SIZE * GRID_SIZE)) 0;
       bufB := replicate (Z.to_nat (GRID_SIZE * GRID_SIZE)) 0 |} in
  setBuf created 0 (cellStateArray random).

Definition initialWorld (random : nat -> Q) : world :=
  {| step := 0; device := initialStorage random; presented := [] |}.

(** [Math.ceil(GRID_SIZE / WORKGROUP_SIZE)]. *)
Definition workgroupCount : Z :=
  (GRID_SIZE + WORKGROUP_SIZE - 1) / WORKGROUP_SIZE.

(** The global invocation ids of [dispatchWorkgroups(countX, countY)]
    with workgroups of [WORKGROUP_SIZE] x [WORKGROUP_SIZE]. *)
Definition invocationIds (countX countY : Z) : list vec2 :=
  y ← seqZ 0 (countY * WORKGROUP_SIZE);
  x ← seqZ 0 (countX * WORKGROUP_SIZE);
  [Vec2 x y].

(** One invocation of [computeMain] under a bind group: [cellStateIn] is
    the buffer of binding 1, [cellStateOut] that of binding 2. *)
Definition invoke (group : bindGroup) (s : storage) (cell : vec2)
    : storage :=
  setBuf s (binding2 group)
    (SimulationShader.computeMain uniformArray
       (getBuf s (binding1 group)) (getBuf s (binding2 group)) cell).

Definition runComputePass (group : bindGroup) (countX countY : Z)
    (s : storage) : storage :=
  fold_left (invoke group) (invocationIds countX countY) s.

(** [pass.draw(vertexCount, instanceCount)] with the vertex buffer and a
    bind group whose binding 1 is [cellState]. *)
Definition draw (group : bindGroup) (vertexCount instanceCount : Z)
    (s : storage) : frame :=
  let cellState := getBuf s (binding1 group) in
  (fun instance =>
     {| corners :=
          (fun p => CellShader.outPos
                      (CellShader.vertexMain uniformArray cellState
                         {| CellShader.pos := p;
                            CellShader.instance := instance |}))
            <$> take (Z.to_nat vertexCount) vertices;
        colour :=
          CellShader.fragmentMain uniformArray cellState
            (CellShader.cellOf uniformArray instance) |})
    <$> seqZ 0 instanceCount.

(** The device queue runs the submitted commands in order. *)
Definition execute (w : world) (c : command) : world :=
  match c with
  | ComputePass group countX countY =>
      {| step := step w;
         device := runComputePass group countX countY (device w);
         presented := presented w |}
  | RenderPass group vertexCount instanceCount =>
      {| step := step w;
         device := device w;
         presented :=
           presented w ++ [draw group vertexCount instanceCount (device w)] |}
  end.

(** The commands [updateGrid] records in its encoder when the counter is
    [step]: the compute pass, then, after [step++], the render pass. *)
Definition recorded (step : Z) : list command * Z :=
  let computePass :=
    ComputePass (bindGroupAt (step mod 2)) workgroupCount workgroupCount in
  let step := step + 1 in
  let pass :=
    RenderPass (bindGroupAt (step mod 2))
      (Z.of_nat (length vertices)) (GRID_SIZE * GRID_SIZE) in
  ([computePass; pass], step).

(** [function updateGrid()]: one tick. *)
Definition updateGrid (w : world) : world :=
  let '(commands, step') := recorded (step w) in
  fold_left execute commands
    {| step := step'; device := device w; presented := presented w |}.

(** [requestAnimationFrame(updateGrid)] at the end of every tick: the
    world after [k] ticks. *)
Definition ticks (k : nat) (w : world) : world :=
  Nat.iter k updateGrid w.

End Driver.

(** ** Notions of the specification *)

(** The three channels of a packed colour, as [fragmentMain] decodes them. *)
Definition red (v : Z) : Z := Z.land v 255.
Definition green (v : Z) : Z := Z.shiftr (Z.land v (Z.shiftl 255 8)) 8.
Definition blue (v : Z) : Z := Z.shiftr (Z.land v (Z.shiftl 255 16)) 16.

(** A cell value whose top byte is zero: the three channels are all of it. *)
Definition packed (v : Z) : Prop := 0 <= v < 2 ^ 24.

(** Sum of [f] over all the colours of an array, in unbounded integers. *)
Definition sumOver (f : Z -> Z) (colors : list Z) : Z :=
  foldr (fun c acc => f c + acc) 0 colors.

(** The average of the specification, in its words: every channel is summed
    in place over all the neighbours, the bias 2 (shifted to the channel) is
    added, the sum is divided by 3 and masked to the channel's field. *)
Definition specAverage (colors : list Z) : Z :=
  Z.land ((sumOver (fun c => Z.land c 255) colors + 2) / 3) 255
  + Z.land ((sumOver (fun c => Z.land c (Z.shiftl 255 8)) colors
             + Z.shiftl 2 8) / 3) (Z.shiftl 255 8)
  + Z.land ((sumOver (fun c => Z.land c (Z.shiftl 255 16)) colors
             + Z.shiftl 2 16) / 3) (Z.shiftl 255 16).

(** The Moore neighbourhood of the specification on an [N] x [N] torus, in
    the order in which [computeMain] gathers it. *)
Definition mooreNeighbours (N x y : Z) : list (Z * Z) :=
  [ ((x + 1) mod N, (y + 1) mod N);
    ((x + 1) mod N, y);
    ((x + 1) mod N, (y - 1) mod N);
    (x, (y - 1) mod N);
    ((x - 1) mod N, (y - 1) mod N);
    ((x - 1) mod N, y);
    ((x - 1) mod N, (y + 1) mod N);
    (x, (y + 1) mod N) ].

(** The value one invocation of [computeMain] stores. *)
Definition nextColor (grid : vec2) (cellStateIn : list Z) (cell : vec2) : Z :=
  let neighbours := SimulationShader.neighbourColors grid cellStateIn cell in
  let count := SimulationShader.countNonZero neighbours in
  if count =? 2 then readBuf cellStateIn (SimulationShader.cellIndex grid cell)
  else if count =? 3 then SimulationShader.averageColor neighbours
  else 0.

(** The buffers of a device have the size they were created with. *)
Definition sized (N : Z) (s : storage) : Prop :=
  length (bufA s) = Z.to_nat (N * N) /\ length (bufB s) = Z.to_nat (N * N).

(** ** Geometry of a draw *)

(** Normalised device coordinates of a clip-space position: the division
    by its [w] component, as the number it is (what the rasteriser makes
    of it is not part of the shaders). *)
Definition ndc (v : vec4) : Q * Q := (px v / pw v, py v / pw v)%Q.

(** Edge function of the directed edge from [a] to [b] at the point [p]. *)
Definition edge (a b p : Q * Q) : Q :=
  ((fst b - fst a) * (snd p - snd a) - (snd b - snd a) * (fst p - fst a))%Q.

(** The closed triangle [a b c], of either orientation (the pipeline sets
    no [cullMode]). *)
Definition inTriangle (a b c p : Q * Q) : bool :=
  (Qle_bool 0 (edge a b p) && Qle_bool 0 (edge b c p) && Qle_bool 0 (edge c a p))
  || (Qle_bool (edge a b p) 0 && Qle_bool (edge b c p) 0 && Qle_bool (edge c a p) 0).

(** The points covered by a list of vertices drawn as a triangle list (the
    default topology). *)
Fixpoint covers (points : list (Q * Q)) (p : Q * Q) : bool :=
  match points with
  | a :: b :: c :: rest => inTriangle a b c p || covers rest p
  | _ => false
  end.

(** The six positions [gridPos] of an instance, before [vertexMain]
    multiplies them by the state. *)
Definition cellQuad (grid : vec2) (instance : Z) : list (Q * Q) :=
  map (fun p => CellShader.gridPos grid
                  {| CellShader.pos := p; CellShader.instance := instance |})
    vertices.

(** The slot of cell (x, y) when the N x N cells tile the square [-1,1]²:
    the region of the specification. *)
Definition slot (N x y : Z) (p : Q * Q) : Prop :=
  (2 * inject_Z x / inject_Z N - 1 <= fst p
   /\ fst p <= 2 * (inject_Z x + 1) / inject_Z N - 1
   /\ 2 * inject_Z y / inject_Z N - 1 <= snd p
   /\ snd p <= 2 * (inject_Z y + 1) / inject_Z N - 1)%Q.

(** The slot of cell (x, y) without a margin of 0.3 / N on every side,
    where exact arithmetic would put the cell's quad, with its sides moved
    outwards by [e] (inwards when [e] is negative). *)
Definition footprint (e : Q) (N x y : Z) (p : Q * Q) : Prop :=
  ((2 * inject_Z x + (3 # 10)) / inject_Z N - 1 - e <= fst p
   /\ fst p <= (2 * inject_Z x + (17 # 10)) / inject_Z N - 1 + e
   /\ (2 * inject_Z y + (3 # 10)) / inject_Z N - 1 - e <= snd p
   /\ snd p <= (2 * inject_Z y + (17 # 10)) / inject_Z N - 1 + e)%Q.

(** The two coordinates [gridPos] gives, on an axis of an N x N grid, to
    the vertices of the cells whose index on that axis is [c]: cell (c, 0)
    is instance [c]. *)
Definition quadLo (N c : Z) : Q :=
  fst (CellShader.gridPos (Vec2 N N)
         {| CellShader.pos := (f32 (- lit_0_7), f32 (- lit_0_7));
            CellShader.instance := c |}).

Definition quadHi (N c : Z) : Q :=
  fst (CellShader.gridPos (Vec2 N N)
         {| CellShader.pos := (f32 lit_0_7, f32 lit_0_7);
            CellShader.instance := c |}).

(** The bound used for the rounding of [gridPos]: sixteen units in the
    last place of 1. *)
Definition quadSlack : Q := 1 # 1048576.

(** ** A 4 x 4 grid with workgroups of 2 x 2, for examples

    The first row holds a red, a green and a blue cell and a dead one, the
    other rows are dead. *)
Definition exampleBuffer : list Z :=
  [ 255; 65280; 16711680; 0;
    0; 0; 0; 0;
    0; 0; 0; 0;
    0; 0; 0; 0 ].

Definition exampleWorld : world :=
  {| step := 0;
     device := {| bufA := exampleBuffer; bufB := replicate 16 0 |};
     presented := [] |}.

(** The same device when buffer B still holds values of an earlier use. *)
Definition exampleStaleWorld : world :=
  {| step := 0;
     device := {| bufA := exampleBuffer; bufB := replicate 16 7 |};
     presented := [] |}.

(** The first vertex of instance 0, the first cell of the grid. *)
Definition firstVertex : CellShader.VertexInput :=
  {| CellShader.pos := (f32 (- lit_0_7), f32 (- lit_0_7));
     CellShader.instance := 0 |}.

(** ** Notions used for the whole generation and the frames *)

(** The generation computed from a read buffer: cell j of the row-major
    N x N grid gets what [computeMain] stores for cell (j mod N, j / N). *)
Definition generation (N : Z) (cellStateIn : list Z) : list Z :=
  (fun j => nextColor (Vec2 N N) cellStateIn (Vec2 (j mod N) (j / N)))
    <$> seqZ 0 (N * N).

(** The frame a draw produces from the buffer bound as [cellState]. *)
Definition frameOf (N : Z) (cellState : list Z)
    (vertexCount instanceCount : Z) : frame :=
  (fun instance =>
     {| corners :=
          (fun p => CellShader.outPos
                      (CellShader.vertexMain (Vec2 N N) cellState
                         {| CellShader.pos := p;
                            CellShader.instance := instance |}))
            <$> take (Z.to_nat vertexCount) vertices;
        colour :=
          CellShader.fragmentMain (Vec2 N N) cellState
            (CellShader.cellOf (Vec2 N N) instance) |})
    <$> seqZ 0 instanceCount.

(** The invocations of the example grid's dispatch, last to first. *)
Definition exampleSchedule : list vec2 := rev (invocationIds 2 2 2).

(** Equality of invocation ids is decidable. *)
#[global] Instance vec2_eq_dec : EqDecision vec2.
Proof. solve_decision. Defined.

(** * Properties *)

(** ** 32-bit arithmetic and channel masks *)

Lemma u32_small z : 0 <= z < 2 ^ 32 -> u32 z = z.
Proof. intros Hz. unfold u32. now apply Z.mod_small. Qed.

Lemma u32_range z : 0 <= u32 z < 2 ^ 32.
Proof. unfold u32. apply Z.mod_pos_bound. lia. Qed.

Lemma land_mask (k c : Z) :
  0 <= k -> Z.land c (Z.shiftl 255 k) = (c / 2 ^ k) mod 2 ^ 8 * 2 ^ k.
Proof.
  intros Hk.
  rewrite <- Z.shiftl_mul_pow2, <- Z.land_ones, <- Z.shiftr_div_pow2 by lia.
  change 255 with (Z.ones 8).
  apply Z.bits_inj'. intros n Hn.
  rewrite Z.land_spec, !Z.shiftl_spec by lia.
  destruct (Z.lt_ge_cases n k) as [Hlt | Hge].
  - rewrite !(Z.testbit_neg_r _ (n - k)) by lia. apply andb_false_r.
  - rewrite Z.land_spec, Z.shiftr_spec by lia.
    now replace (n - k + k) with n by lia.
Qed.

Lemma land_mask_range (k c : Z) :
  0 <= k -> 0 <= Z.land c (Z.shiftl 255 k) <= 255 * 2 ^ k.
Proof.
  intros Hk. rewrite land_mask by lia.
  assert (0 < 2 ^ k) by (apply Z.pow_pos_nonneg; lia).
  assert (0 <= (c / 2 ^ k) mod 2 ^ 8 < 2 ^ 8) by (apply Z.mod_pos_bound; lia).
  nia.
Qed.

Lemma land_255 c : Z.land c 255 = c mod 2 ^ 8.
Proof. change 255 with (Z.ones 8). apply Z.land_ones. lia. Qed.

Lemma land_255_range c : 0 <= Z.land c 255 <= 255.
Proof.
  rewrite land_255.
  assert (0 <= c mod 2 ^ 8 < 2 ^ 8) by (apply Z.mod_pos_bound; lia). lia.
Qed.

Lemma red_spec v : red v = v mod 256.
Proof. apply land_255. Qed.

Lemma green_spec v : green v = (v / 256) mod 256.
Proof.
  unfold green. rewrite land_mask, Z.shiftr_div_pow2 by lia.
  now rewrite Z.div_mul by lia.
Qed.

Lemma blue_spec v : blue v = (v / 65536) mod 256.
Proof.
  unfold blue. rewrite land_mask, Z.shiftr_div_pow2 by lia.
  now rewrite Z.div_mul by lia.
Qed.

(** A packed value is the sum of its three channels at their positions. *)
Lemma packed_channels v :
  packed v -> v = red v + green v * 2 ^ 8 + blue v * 2 ^ 16.
Proof.
  unfold packed. intros Hv. rewrite red_spec, green_spec, blue_spec.
  assert (v / 65536 < 256) by (apply Z.div_lt_upper_bound; lia).
  assert (0 <= v / 65536) by (apply Z.div_pos; lia).
  rewrite (Z.mod_small (v / 65536)) by lia.
  rewrite (Z.div_mod v 256) at 1 by lia.
  rewrite (Z.div_mod (v / 256) 256) at 1 by lia.
  rewrite Z.div_div by lia. change (256 * 256) with 65536. lia.
Qed.

(** ** The loops of [averageColor] and [countNonZero] *)

(** A loop [for (var i = 0; i < n; i++)] reading [colors[i]] visits the
    elements of an array of [n] elements in order. *)
Lemma fold_left_indices {A} (F : A -> Z -> A) (l pre : list Z) (a : A) :
  fold_left (fun acc i => F acc (nth i (pre ++ l) 0))
    (seq (length pre) (length l)) a
  = fold_left F l a.
Proof.
  revert pre a. induction l as [| c l IH]; intros pre a; [reflexivity |].
  cbn [length seq fold_left].
  rewrite app_nth2, Nat.sub_diag by lia. cbn [nth].
  specialize (IH (pre ++ [c]) (F a c)).
  rewrite <- app_assoc, length_app in IH. cbn [length app] in IH.
  replace (length pre + 1)%nat with (S (length pre)) in IH by lia.
  exact IH.
Qed.

Lemma fold_left_array {A} (F : A -> Z -> A) (colors : list Z) (a : A) :
  fold_left (fun acc i => F acc (nth i colors 0)) (seq 0 (length colors)) a
  = fold_left F colors a.
Proof. exact (fold_left_indices F colors [] a). Qed.

Lemma fold_left_pointwise {A B} (f g : A -> B -> A) (l : list B) (a : A) :
  (forall a b, f a b = g a b) -> fold_left f l a = fold_left g l a.
Proof.
  intros Hfg. revert a. induction l as [| b l IH]; intros a; cbn; [reflexivity |].
  now rewrite Hfg, IH.
Qed.

(** The three running sums never wrap. *)
Lemma channel_sums (colors : list Z) (r g b : Z) :
  0 <= r -> 0 <= g -> 0 <= b ->
  r + 255 * Z.of_nat (length colors) < 2 ^ 32 ->
  g + 255 * 2 ^ 8 * Z.of_nat (length colors) < 2 ^ 32 ->
  b + 255 * 2 ^ 16 * Z.of_nat (length colors) < 2 ^ 32 ->
  fold_left
    (fun '(r, g, b) c =>
       (u32 (r + Z.land c 255),
        u32 (g + Z.land c (Z.shiftl 255 8)),
        u32 (b + Z.land c (Z.shiftl 255 16))))
    colors (r, g, b)
  = (r + sumOver (fun c => Z.land c 255) colors,
     g + sumOver (fun c => Z.land c (Z.shiftl 255 8)) colors,
     b + sumOver (fun c => Z.land c (Z.shiftl 255 16)) colors).
Proof.
  revert r g b. induction colors as [| c colors IH]; intros r g b Hr Hg Hb Br Bg Bb.
  - cbn. now rewrite !Z.add_0_r.
  - cbn [fold_left sumOver foldr]. cbn [length] in Br, Bg, Bb.
    pose proof (land_255_range c) as H0.
    pose proof (land_mask_range 8 c ltac:(lia)) as H8.
    pose proof (land_mask_range 16 c ltac:(lia)) as H16.
    rewrite !u32_small by lia.
    rewrite IH by lia. fold (sumOver (fun c => Z.land c 255) colors).
    fold (sumOver (fun c => Z.land c (Z.shiftl 255 8)) colors).
    fold (sumOver (fun c => Z.land c (Z.shiftl 255 16)) colors).
    f_equal; [f_equal |]; lia.
Qed.

Lemma sumOver_range (f : Z -> Z) (m : Z) (colors : list Z) :
  (forall c, 0 <= f c <= m) ->
  0 <= sumOver f colors <= m * Z.of_nat (length colors).
Proof.
  intros Hf. induction colors as [| c colors IH]; cbn [sumOver foldr length].
  - lia.
  - fold (sumOver f colors). specialize (Hf c). lia.
Qed.

(** The shader's [averageColor] computes the average of the specification:
    none of its 32-bit operations wraps. *)
Lemma averageColor_spec (colors : list Z) :
  length colors = 8%nat ->
  SimulationShader.averageColor colors = specAverage colors.
Proof.
  intros Hlen. unfold SimulationShader.averageColor.
  rewrite <- Hlen.
  rewrite (fold_left_pointwise _
             (fun acc i =>
                (fun '(r, g, b) c =>
                   (u32 (r + Z.land c 255),
                    u32 (g + Z.land c (Z.shiftl 255 8)),
                    u32 (b + Z.land c (Z.shiftl 255 16))))
                  acc (nth i colors 0)))
    by (intros [[r g] b] i; reflexivity).
  rewrite fold_left_array.
  rewrite channel_sums by (rewrite ?Hlen; lia).
  rewrite !Z.add_0_l. unfold specAverage.
  pose proof (sumOver_range (fun c => Z.land c 255) 255 colors land_255_range) as Hr.
  pose proof (sumOver_range (fun c => Z.land c (Z.shiftl 255 8)) (255 * 2 ^ 8)
                colors (fun c => land_mask_range 8 c ltac:(lia))) as Hg.
  pose proof (sumOver_range (fun c => Z.land c (Z.shiftl 255 16)) (255 * 2 ^ 16)
                colors (fun c => land_mask_range 16 c ltac:(lia))) as Hb.
  rewrite Hlen in Hr, Hg, Hb.
  set (R := sumOver (fun c => Z.land c 255) colors) in *.
  set (G := sumOver (fun c => Z.land c (Z.shiftl 255 8)) colors) in *.
  set (B := sumOver (fun c => Z.land c (Z.shiftl 255 16)) colors) in *.
  change (Z.shiftl 2 8) with 512. change (Z.shiftl 2 16) with 131072.
  rewrite (u32_small (R + 2)), (u32_small (G + 512)), (u32_small (B + 131072))
    by lia.
  pose proof (land_255_range ((R + 2) / 3)).
  pose proof (land_mask_range 8 ((G + 512) / 3) ltac:(lia)).
  pose proof (land_mask_range 16 ((B + 131072) / 3) ltac:(lia)).
  rewrite (u32_small (Z.land _ 255 + _)) by lia.
  now rewrite u32_small by lia.
Qed.

Lemma sumOver_scaled (f g : Z -> Z) (m : Z) (colors : list Z) :
  (forall c, f c = g c * m) -> sumOver f colors = sumOver g colors * m.
Proof.
  intros Hfg. induction colors as [| c colors IH]; cbn [sumOver foldr]; [lia |].
  fold (sumOver f colors). fold (sumOver g colors). rewrite Hfg, IH. lia.
Qed.

(** Channel by channel: the green and blue sums are the sums of the green
    and blue channels at their bit positions, and dividing the shifted sum
    gives the quotient of the channel sum at that position. *)
Lemma specAverage_channels (colors : list Z) :
  specAverage colors
  = ((sumOver red colors + 2) / 3) mod 256
    + ((sumOver green colors + 2) / 3) mod 256 * 2 ^ 8
    + ((sumOver blue colors + 2) / 3) mod 256 * 2 ^ 16.
Proof.
  unfold specAverage.
  rewrite (sumOver_scaled (fun c => Z.land c (Z.shiftl 255 8)) green (2 ^ 8))
    by (intros c; rewrite green_spec; now apply land_mask).
  rewrite (sumOver_scaled (fun c => Z.land c (Z.shiftl 255 16)) blue (2 ^ 16))
    by (intros c; rewrite blue_spec; now apply land_mask).
  rewrite land_255, !land_mask by lia.
  change (Z.shiftl 2 8) with (2 * 2 ^ 8). change (Z.shiftl 2 16) with (2 * 2 ^ 16).
  rewrite <- !Z.mul_add_distr_r, !Z.div_div by lia.
  rewrite !Z.div_mul_cancel_r by lia.
  reflexivity.
Qed.

Lemma specAverage_packed (colors : list Z) : packed (specAverage colors).
Proof.
  rewrite specAverage_channels. unfold packed.
  assert (H : forall z, 0 <= z mod 256 < 256) by (intros; apply Z.mod_pos_bound; lia).
  pose proof (H ((sumOver red colors + 2) / 3)).
  pose proof (H ((sumOver green colors + 2) / 3)).
  pose proof (H ((sumOver blue colors + 2) / 3)).
  lia.
Qed.

(** [countNonZero] counts the non-zero elements; its counter never wraps. *)
Lemma countNonZero_loop (colors : list Z) (count : Z) :
  0 <= count -> count + Z.of_nat (length colors) < 2 ^ 32 ->
  fold_left (fun count c => if c =? 0 then count else u32 (count + 1))
    colors count
  = count + Z.of_nat (length (filter (fun c => c <> 0) colors)).
Proof.
  revert count. induction colors as [| c colors IH]; intros count H0 Hb.
  - cbn. lia.
  - cbn [fold_left length] in *. rewrite filter_cons.
    destruct (Z.eqb_spec c 0) as [-> | Hc].
    + rewrite decide_False by tauto. apply IH; lia.
    + rewrite decide_True by assumption. rewrite u32_small by lia.
      rewrite IH by lia. cbn [length]. lia.
Qed.

Lemma countNonZero_spec (colors : list Z) :
  length colors = 8%nat ->
  SimulationShader.countNonZero colors
  = Z.of_nat (length (filter (fun c => c <> 0) colors)).
Proof.
  intros Hlen. unfold SimulationShader.countNonZero. rewrite <- Hlen.
  rewrite (fold_left_array (fun count c => if c =? 0 then count else u32 (count + 1))).
  rewrite countNonZero_loop by (rewrite ?Hlen; lia). lia.
Qed.

Lemma neighbourColors_length grid cellStateIn cell :
  length (SimulationShader.neighbourColors grid cellStateIn cell) = 8%nat.
Proof. reflexivity. Qed.

(** ** One invocation *)

Lemma computeMain_store grid cellStateIn cellStateOut cell :
  SimulationShader.computeMain grid cellStateIn cellStateOut cell
  = <[Z.to_nat (SimulationShader.cellIndex grid cell)
      := nextColor grid cellStateIn cell]> cellStateOut.
Proof.
  unfold SimulationShader.computeMain, nextColor.
  destruct (_ =? 2); [reflexivity |]. now destruct (_ =? 3).
Qed.

(** ** Indexing the grid *)

Section Grid.

Variable N : Z.
Hypothesis N_pos : 0 < N.
Hypothesis N_fits : N * N <= 2 ^ 32.

Lemma cellIndex_eq (x y : Z) :
  SimulationShader.cellIndex (Vec2 N N) (Vec2 x y) = (y mod N) * N + x mod N.
Proof.
  unfold SimulationShader.cellIndex. cbn.
  assert (0 <= x mod N < N) by (apply Z.mod_pos_bound; lia).
  assert (0 <= y mod N < N) by (apply Z.mod_pos_bound; lia).
  rewrite (u32_small (y mod N * N)) by nia.
  rewrite u32_small by nia. reflexivity.
Qed.

Lemma cellIndex_range (cell : vec2) :
  0 <= SimulationShader.cellIndex (Vec2 N N) cell < N * N.
Proof.
  destruct cell as [x y]. rewrite cellIndex_eq.
  assert (0 <= x mod N < N) by (apply Z.mod_pos_bound; lia).
  assert (0 <= y mod N < N) by (apply Z.mod_pos_bound; lia).
  nia.
Qed.

Lemma cellIndex_inside (x y : Z) :
  0 <= x < N -> 0 <= y < N ->
  SimulationShader.cellIndex (Vec2 N N) (Vec2 x y) = y * N + x.
Proof. intros Hx Hy. rewrite cellIndex_eq, !Z.mod_small by lia. reflexivity. Qed.

Lemma cellIndex_inj (x y x' y' : Z) :
  0 <= x < N -> 0 <= y < N -> 0 <= x' < N -> 0 <= y' < N ->
  y * N + x = y' * N + x' -> x = x' /\ y = y'.
Proof.
  intros Hx Hy Hx' Hy' Heq.
  assert (y = y') by (destruct (Z.lt_trichotomy y y') as [? | [? | ?]]; nia).
  subst y'. split; lia.
Qed.

End Grid.

(** ** The neighbourhood *)

Lemma u32_mod (N z : Z) : 2 ^ 32 mod N = 0 -> 0 < N -> u32 z mod N = z mod N.
Proof.
  intros Hdiv HN. unfold u32. apply Z.mod_mod_divide.
  apply Z.mod_divide; [lia | exact Hdiv].
Qed.

(** The eight reads of [computeMain], as reads at the coordinates of the
    torus. *)
Lemma neighbourColors_torus (N x y : Z) (cellStateIn : list Z) :
  0 < N -> N * N <= 2 ^ 32 -> 2 ^ 32 mod N = 0 ->
  0 <= x < N -> 0 <= y < N ->
  SimulationShader.neighbourColors (Vec2 N N) cellStateIn (Vec2 x y)
  = map (fun '(a, b) => readBuf cellStateIn (b * N + a)) (mooreNeighbours N x y).
Proof.
  intros HN Hfits Hdiv Hx Hy.
  unfold SimulationShader.neighbourColors, SimulationShader.cellColor,
    mooreNeighbours.
  cbn [vx vy map].
  rewrite !(cellIndex_eq N HN Hfits), !(u32_mod N) by assumption.
  rewrite !(Z.mod_small x N), !(Z.mod_small y N) by lia.
  reflexivity.
Qed.

Lemma mooreNeighbours_inside (N x y : Z) :
  0 < N -> 0 <= x < N -> 0 <= y < N ->
  Forall (fun '(a, b) => 0 <= a < N /\ 0 <= b < N) (mooreNeighbours N x y).
Proof.
  intros HN Hx Hy.
  assert (Hb : forall z, 0 <= z mod N < N) by (intros; apply Z.mod_pos_bound; lia).
  unfold mooreNeighbours.
  pose proof (Hb (x + 1)). pose proof (Hb (x - 1)).
  pose proof (Hb (y + 1)). pose proof (Hb (y - 1)).
  repeat (apply Forall_cons; split; [lia |]). apply Forall_nil. exact I.
Qed.

(** C2. On a grid whose side divides 2^32 (512 does), the eight values
    gathered for a cell (x, y) of the grid, edge and corner cells included,
    are the values of the read buffer at (x±1, y±1), (x±1, y), (x, y±1)
    taken modulo N in both axes, although x-1 and y-1 wrap around 2^32 at 0
    before the remainder is taken; these coordinates are cells of the grid,
    and for the corner (0,0) the cells (N-1,N-1), (N-1,0) and (0,N-1) are
    among them. *)
Theorem C2_neighbours_wrap_modulo_N (N x y : Z) (cellStateIn : list Z) :
  0 < N -> N * N <= 2 ^ 32 -> 2 ^ 32 mod N = 0 ->
  0 <= x < N -> 0 <= y < N ->
  SimulationShader.neighbourColors (Vec2 N N) cellStateIn (Vec2 x y)
  = map (fun '(a, b) => readBuf cellStateIn (b * N + a)) (mooreNeighbours N x y)
  /\ Forall (fun '(a, b) => 0 <= a < N /\ 0 <= b < N) (mooreNeighbours N x y)
  /\ SimulationShader.neighbourColors (Vec2 N N) cellStateIn (Vec2 0 0)
     = [ readBuf cellStateIn (1 mod N * N + 1 mod N);
         readBuf cellStateIn (0 * N + 1 mod N);
         readBuf cellStateIn ((N - 1) * N + 1 mod N);
         readBuf cellStateIn ((N - 1) * N + 0);
         readBuf cellStateIn ((N - 1) * N + (N - 1));
         readBuf cellStateIn (0 * N + (N - 1));
         readBuf cellStateIn (1 mod N * N + (N - 1));
         readBuf cellStateIn (1 mod N * N + 0) ].
Proof.
  intros HN Hfits Hdiv Hx Hy. split; [| split].
  - now apply neighbourColors_torus.
  - now apply mooreNeighbours_inside.
  - rewrite neighbourColors_torus by (assumption || lia).
    unfold mooreNeighbours. cbn [Z.add Z.sub Z.opp map].
    assert (Hm : (-1) mod N = N - 1).
    { symmetry. apply (Z.mod_unique _ _ (-1)); lia. }
    change (0 - 1) with (-1). change (0 + 1) with 1. now rewrite !Hm.
Qed.

Lemma C2_neighbours_wrap_modulo_N_witness :
  SimulationShader.neighbourColors
    (Vec2 Const.GRID_SIZE Const.GRID_SIZE) (seqZ 0 262144) (Vec2 511 0)
  = map (fun '(a, b) => readBuf (seqZ 0 262144) (b * Const.GRID_SIZE + a))
      (mooreNeighbours Const.GRID_SIZE 511 0)
  /\ Forall (fun '(a, b) => 0 <= a < Const.GRID_SIZE /\ 0 <= b < Const.GRID_SIZE)
       (mooreNeighbours Const.GRID_SIZE 511 0)
  /\ SimulationShader.neighbourColors
       (Vec2 Const.GRID_SIZE Const.GRID_SIZE) (seqZ 0 262144) (Vec2 0 0)
     = [ readBuf (seqZ 0 262144)
           (1 mod Const.GRID_SIZE * Const.GRID_SIZE + 1 mod Const.GRID_SIZE);
         readBuf (seqZ 0 262144) (0 * Const.GRID_SIZE + 1 mod Const.GRID_SIZE);
         readBuf (seqZ 0 262144)
           ((Const.GRID_SIZE - 1) * Const.GRID_SIZE + 1 mod Const.GRID_SIZE);
         readBuf (seqZ 0 262144) ((Const.GRID_SIZE - 1) * Const.GRID_SIZE + 0);
         readBuf (seqZ 0 262144)
           ((Const.GRID_SIZE - 1) * Const.GRID_SIZE + (Const.GRID_SIZE - 1));
         readBuf (seqZ 0 262144) (0 * Const.GRID_SIZE + (Const.GRID_SIZE - 1));
         readBuf (seqZ 0 262144)
           (1 mod Const.GRID_SIZE * Const.GRID_SIZE + (Const.GRID_SIZE - 1));
         readBuf (seqZ 0 262144) (1 mod Const.GRID_SIZE * Const.GRID_SIZE + 0) ].
Proof.
  apply (C2_neighbours_wrap_modulo_N Const.GRID_SIZE 511 0 (seqZ 0 262144));
    unfold Const.GRID_SIZE; first [lia | reflexivity].
Defined.

(** Without that divisibility the remainder taken after the wrap-around of
    x-1 is not x-1 modulo N: on a 3 x 3 grid cell (0,0) reads column 0 where
    the torus has column 2. *)
Remark wrap_on_3x3_grid :
  SimulationShader.neighbourColors (Vec2 3 3) [1; 2; 3; 4; 5; 6; 7; 8; 9] (Vec2 0 0)
  = [5; 2; 2; 1; 1; 1; 4; 4].
Proof. reflexivity. Qed.

(** ** A dispatch over the device *)

Lemma getBuf_setBuf_same (s : storage) (k : Z) (b : list Z) :
  getBuf (setBuf s k b) k = b.
Proof. unfold getBuf, setBuf. now destruct (k =? 0). Qed.

Lemma getBuf_setBuf_other (s : storage) (j k : Z) (b : list Z) :
  (j =? 0) <> (k =? 0) -> getBuf (setBuf s k b) j = getBuf s j.
Proof.
  intros Hne. unfold getBuf, setBuf.
  destruct (j =? 0), (k =? 0); try reflexivity; now destruct Hne.
Qed.

(** The bind group chosen by [step % 2] reads the buffer of that parity
    and writes the other one. *)
Lemma bindGroupAt_parity (k : Z) :
  bindGroupAt (k mod 2) = {| binding1 := k mod 2; binding2 := (k + 1) mod 2 |}.
Proof.
  rewrite (Z.add_mod k 1 2) by lia.
  assert (H : k mod 2 = 0 \/ k mod 2 = 1)
    by (pose proof (Z.mod_pos_bound k 2 ltac:(lia)); lia).
  destruct H as [-> | ->]; reflexivity.
Qed.

Lemma parity_distinct (k : Z) : (k mod 2 =? 0) <> ((k + 1) mod 2 =? 0).
Proof.
  rewrite (Z.add_mod k 1 2) by lia.
  assert (H : k mod 2 = 0 \/ k mod 2 = 1)
    by (pose proof (Z.mod_pos_bound k 2 ltac:(lia)); lia).
  destruct H as [-> | ->]; vm_compute; intros H; discriminate H.
Qed.

(** When the two bindings of a group are different buffers, the input of
    a whole dispatch is the buffer as it was before the dispatch, and the
    dispatch is a sequence of stores into the output. *)
Lemma dispatch_buffers (N : Z) (group : bindGroup) (ids : list vec2) (s : storage) :
  (binding1 group =? 0) <> (binding2 group =? 0) ->
  getBuf (fold_left (invoke N group) ids s) (binding1 group)
  = getBuf s (binding1 group)
  /\ getBuf (fold_left (invoke N group) ids s) (binding2 group)
     = fold_left
         (fun out cell =>
            <[Z.to_nat (SimulationShader.cellIndex (Vec2 N N) cell)
              := nextColor (Vec2 N N) (getBuf s (binding1 group)) cell]> out)
         ids (getBuf s (binding2 group)).
Proof.
  intros Hne. revert s. induction ids as [| cell ids IH]; intros s.
  - split; reflexivity.
  - cbn [fold_left]. destruct (IH (invoke N group s cell)) as [IH1 IH2].
    assert (Hin : getBuf (invoke N group s cell) (binding1 group)
                  = getBuf s (binding1 group))
      by (unfold invoke; now rewrite getBuf_setBuf_other).
    rewrite IH1, IH2, Hin. split; [reflexivity |].
    f_equal. unfold invoke. rewrite getBuf_setBuf_same.
    unfold uniformArray. now rewrite computeMain_store.
Qed.

Lemma stores_length {A} (idx : A -> nat) (val : A -> Z) (ids : list A)
    (out : list Z) :
  length (fold_left (fun o c => <[idx c := val c]> o) ids out) = length out.
Proof.
  revert out. induction ids as [| c ids IH]; intros out; cbn [fold_left].
  - reflexivity.
  - now rewrite IH, length_insert.
Qed.

(** After a sequence of stores, an index that some store addresses, and
    at which all the stores addressing it put the same value, holds that
    value. *)
Lemma stores_lookup {A} (idx : A -> nat) (val : A -> Z) (ids : list A)
    (out : list Z) (j : nat) (v : Z) :
  (j < length out)%nat ->
  (exists c, In c ids /\ idx c = j) ->
  (forall c, In c ids -> idx c = j -> val c = v) ->
  fold_left (fun o c => <[idx c := val c]> o) ids out !! j = Some v.
Proof.
  intros Hj. induction ids as [| c ids IH] using rev_ind; intros Hex Hval.
  - destruct Hex as [c [[] _]].
  - rewrite fold_left_app. cbn [fold_left].
    destruct (Nat.eq_dec (idx c) j) as [Heq | Hneq].
    + rewrite Heq, list_lookup_insert_eq by now rewrite stores_length.
      f_equal. apply Hval; [apply in_or_app; right; now left | exact Heq].
    + rewrite list_lookup_insert_ne by exact Hneq.
      apply IH.
      * destruct Hex as [c' [Hin Hc']]. exists c'. split; [| exact Hc'].
        apply in_app_or in Hin. destruct Hin as [Hin | [-> | []]];
          [exact Hin | contradiction].
      * intros c' Hin. apply Hval. apply in_or_app. now left.
Qed.

Lemma stores_untouched {A} (idx : A -> nat) (val : A -> Z) (ids : list A)
    (out : list Z) (j : nat) :
  (forall c, In c ids -> idx c <> j) ->
  fold_left (fun o c => <[idx c := val c]> o) ids out !! j = out !! j.
Proof.
  revert out. induction ids as [| c ids IH]; intros out Hno; [reflexivity |].
  cbn [fold_left]. rewrite IH by (intros c' Hc'; apply Hno; now right).
  apply list_lookup_insert_ne, Hno. now left.
Qed.

(** The order of the stores does not matter when stores to the same index
    put the same value. *)
Lemma stores_any_order {A} (idx : A -> nat) (val : A -> Z) (ids ids' : list A)
    (out : list Z) :
  ids ≡ₚ ids' ->
  (forall c c', In c ids -> In c' ids -> idx c = idx c' -> val c = val c') ->
  fold_left (fun o c => <[idx c := val c]> o) ids out
  = fold_left (fun o c => <[idx c := val c]> o) ids' out.
Proof.
  intros Hperm Hval. apply list_eq. intros j.
  destruct (le_lt_dec (length out) j) as [Hge | Hlt].
  - rewrite !(proj2 (lookup_ge_None _ _)) by (rewrite stores_length; exact Hge).
    reflexivity.
  - destruct (decide (Exists (fun c => idx c = j) ids)) as [Hex | Hno].
    + apply Exists_exists in Hex. destruct Hex as [c [Hc Hj]].
      apply list_elem_of_In in Hc.
      rewrite (stores_lookup idx val ids out j (val c)); try assumption.
      * symmetry. apply stores_lookup; try assumption.
        -- exists c. split; [| exact Hj].
           exact (Permutation_in _ Hperm Hc).
        -- intros c' Hc' Hj'. symmetry. apply Hval; try assumption; [| congruence].
           exact (Permutation_in _ (Permutation_sym Hperm) Hc').
      * exists c. now split.
      * intros c' Hc' Hj'. symmetry. apply Hval; try assumption. congruence.
    + rewrite !stores_untouched; [reflexivity | |].
      * intros c Hc Hj. apply Hno, Exists_exists. exists c. split; [| exact Hj].
        apply list_elem_of_In. exact (Permutation_in _ (Permutation_sym Hperm) Hc).
      * intros c Hc Hj. apply Hno, Exists_exists. exists c. split; [| exact Hj].
        apply list_elem_of_In. exact Hc.
Qed.

Lemma storage_eq (s s' : storage) (k : Z) :
  getBuf s (k mod 2) = getBuf s' (k mod 2) ->
  getBuf s ((k + 1) mod 2) = getBuf s' ((k + 1) mod 2) ->
  s = s'.
Proof.
  rewrite (Z.add_mod k 1 2) by lia.
  assert (H : k mod 2 = 0 \/ k mod 2 = 1)
    by (pose proof (Z.mod_pos_bound k 2 ltac:(lia)); lia).
  destruct s, s'.
  destruct H as [-> | ->]; intros H1 H2; vm_compute in H1, H2; congruence.
Qed.

(** The invocation ids of a dispatch. *)
Lemma invocationIds_spec (W countX countY : Z) (cell : vec2) :
  In cell (invocationIds W countX countY)
  <-> 0 <= vx cell < countX * W /\ 0 <= vy cell < countY * W.
Proof.
  unfold invocationIds. rewrite <- list_elem_of_In, list_elem_of_bind. split.
  - intros [y [Hx Hy]]. apply list_elem_of_bind in Hx. destruct Hx as [x [Hc Hx]].
    apply list_elem_of_singleton in Hc. subst cell. cbn.
    apply elem_of_seqZ in Hx, Hy. lia.
  - intros [Hx Hy]. exists (vy cell). split; [| apply elem_of_seqZ; lia].
    apply list_elem_of_bind. exists (vx cell). split; [| apply elem_of_seqZ; lia].
    destruct cell. cbn. apply list_elem_of_singleton. reflexivity.
Qed.

(** Workgroups of a size that divides the side of the grid cover the grid
    exactly. *)
Lemma workgroups_cover (N W : Z) :
  0 < W -> N mod W = 0 -> workgroupCount N W * W = N.
Proof.
  intros HW Hdiv. unfold workgroupCount.
  apply Z.mod_divide in Hdiv; [| lia]. destruct Hdiv as [q ->].
  replace (q * W + W - 1) with (W - 1 + q * W) by lia.
  rewrite Z.div_add, Z.div_small by lia. lia.
Qed.

(** The channels of a value assembled from three bytes are those bytes. *)
Lemma channels_of_bytes (r g b : Z) :
  0 <= r < 256 -> 0 <= g < 256 -> 0 <= b < 256 ->
  red (r + g * 2 ^ 8 + b * 2 ^ 16) = r
  /\ green (r + g * 2 ^ 8 + b * 2 ^ 16) = g
  /\ blue (r + g * 2 ^ 8 + b * 2 ^ 16) = b.
Proof.
  intros Hr Hg Hb. rewrite red_spec, green_spec, blue_spec.
  assert (H1 : (r + g * 2 ^ 8 + b * 2 ^ 16) / 256 = g + b * 256).
  { symmetry. apply (Z.div_unique _ _ _ r); lia. }
  assert (H2 : (r + g * 2 ^ 8 + b * 2 ^ 16) / 65536 = b).
  { symmetry. apply (Z.div_unique _ _ _ (r + g * 256)); lia. }
  rewrite H1, H2. repeat split.
  - symmetry. apply (Z.mod_unique _ _ (g + b * 256)); lia.
  - symmetry. apply (Z.mod_unique _ _ b); lia.
  - apply Z.mod_small; lia.
Qed.

(** Every channel of the average depends on that channel of the colours
    only: it is the biased third of the channel's sum, reduced to a byte. *)
Lemma averageColor_channels (colors : list Z) :
  length colors = 8%nat ->
  red (SimulationShader.averageColor colors)
  = ((sumOver red colors + 2) / 3) mod 256
  /\ green (SimulationShader.averageColor colors)
     = ((sumOver green colors + 2) / 3) mod 256
  /\ blue (SimulationShader.averageColor colors)
     = ((sumOver blue colors + 2) / 3) mod 256.
Proof.
  intros Hlen. rewrite averageColor_spec, specAverage_channels by assumption.
  apply channels_of_bytes; apply Z.mod_pos_bound; lia.
Qed.

Lemma sumOver_nonzero (f : Z -> Z) (m : Z) (colors : list Z) :
  f 0 = 0 -> (forall c, 0 <= f c <= m) ->
  sumOver f colors <= m * Z.of_nat (length (filter (fun c => c <> 0) colors)).
Proof.
  intros H0 Hf. induction colors as [| c colors IH]; cbn [sumOver foldr].
  - cbn. lia.
  - fold (sumOver f colors). rewrite filter_cons.
    destruct (decide (c <> 0)) as [Hc | Hc].
    + cbn [length]. specialize (Hf c). lia.
    + assert (c = 0) by lia. subst c. rewrite H0. lia.
Qed.

(** With exactly three non-zero colours among the eight, every biased
    third fits a byte: in the birth case the masks of [averageColor] cut
    nothing off. *)
Lemma birth_never_truncates (colors : list Z) :
  length colors = 8%nat ->
  SimulationShader.countNonZero colors = 3 ->
  SimulationShader.averageColor colors
  = (sumOver red colors + 2) / 3
    + (sumOver green colors + 2) / 3 * 2 ^ 8
    + (sumOver blue colors + 2) / 3 * 2 ^ 16.
Proof.
  intros Hlen Hcount. rewrite countNonZero_spec in Hcount by assumption.
  rewrite averageColor_spec, specAverage_channels by assumption.
  assert (Hbyte : forall z, 0 <= z mod 256 <= 255)
    by (intros z; pose proof (Z.mod_pos_bound z 256 ltac:(lia)); lia).
  pose proof (sumOver_nonzero red 255 colors eq_refl
                (fun c => eq_ind_r (fun z => 0 <= z <= 255) (Hbyte c) (red_spec c)))
    as Hr.
  pose proof (sumOver_nonzero green 255 colors eq_refl
                (fun c => eq_ind_r (fun z => 0 <= z <= 255) (Hbyte _) (green_spec c)))
    as Hg.
  pose proof (sumOver_nonzero blue 255 colors eq_refl
                (fun c => eq_ind_r (fun z => 0 <= z <= 255) (Hbyte _) (blue_spec c)))
    as Hb.
  rewrite Hcount in Hr, Hg, Hb.
  pose proof (sumOver_range red 255 colors
                (fun c => eq_ind_r (fun z => 0 <= z <= 255) (Hbyte c) (red_spec c))).
  pose proof (sumOver_range green 255 colors
                (fun c => eq_ind_r (fun z => 0 <= z <= 255) (Hbyte _) (green_spec c))).
  pose proof (sumOver_range blue 255 colors
                (fun c => eq_ind_r (fun z => 0 <= z <= 255) (Hbyte _) (blue_spec c))).
  rewrite !Z.mod_small; [reflexivity | | |];
    (split; [apply Z.div_pos; lia | apply Z.div_lt_upper_bound; lia]).
Qed.

(** ** One tick *)

Lemma updateGrid_step (N W : Z) (w : world) :
  step (updateGrid N W w) = step w + 1.
Proof. reflexivity. Qed.

Lemma updateGrid_device (N W : Z) (w : world) :
  device (updateGrid N W w)
  = runComputePass N W (bindGroupAt (step w mod 2))
      (workgroupCount N W) (workgroupCount N W) (device w).
Proof. reflexivity. Qed.

Lemma updateGrid_presented (N W : Z) (w : world) :
  presented (updateGrid N W w)
  = presented w
    ++ [draw N (bindGroupAt ((step w + 1) mod 2))
          (Z.of_nat (length vertices)) (N * N) (device (updateGrid N W w))].
Proof. reflexivity. Qed.

Lemma sized_getBuf (N : Z) (s : storage) (k : Z) :
  sized N s -> length (getBuf s k) = Z.to_nat (N * N).
Proof. intros [HA HB]. unfold getBuf. now destruct (k =? 0). Qed.

Section Transition.

Variables N W : Z.
Hypothesis W_pos : 0 < W.
Hypothesis W_divides : N mod W = 0.
Hypothesis N_pos : 0 < N.
Hypothesis N_fits : N * N <= 2 ^ 32.

(** After a tick, the written buffer holds at every cell of the grid the
    value [computeMain] computes for that cell from the read buffer. *)
Lemma transition_cell (w : world) (x y : Z) :
  sized N (device w) -> 0 <= x < N -> 0 <= y < N ->
  getBuf (device (updateGrid N W w)) ((step w + 1) mod 2) !! Z.to_nat (y * N + x)
  = Some (nextColor (Vec2 N N) (getBuf (device w) (step w mod 2)) (Vec2 x y)).
Proof.
  intros Hsized Hx Hy.
  rewrite updateGrid_device, bindGroupAt_parity. unfold runComputePass.
  pose proof (parity_distinct (step w)) as Hne.
  destruct (dispatch_buffers N
              {| binding1 := step w mod 2; binding2 := (step w + 1) mod 2 |}
              (invocationIds W (workgroupCount N W) (workgroupCount N W))
              (device w) Hne) as [_ Hout].
  cbn [binding1 binding2] in Hout. rewrite Hout. clear Hout.
  apply (stores_lookup
           (fun cell => Z.to_nat (SimulationShader.cellIndex (Vec2 N N) cell))).
  - rewrite (sized_getBuf N) by assumption. nia.
  - exists (Vec2 x y). split.
    + apply invocationIds_spec. rewrite workgroups_cover by assumption. cbn. lia.
    + now rewrite (cellIndex_inside N N_pos N_fits) by assumption.
  - intros [x' y'] Hin Hidx. apply invocationIds_spec in Hin.
    rewrite workgroups_cover in Hin by assumption. cbn [vx vy] in Hin.
    rewrite (cellIndex_inside N N_pos N_fits) in Hidx by lia.
    assert (Heq : y' * N + x' = y * N + x) by nia.
    destruct (cellIndex_inj N N_pos N_fits x' y' x y) as [-> ->];
      [lia | lia | lia | lia | exact Heq |].
    reflexivity.
Qed.

Lemma transition_read (w : world) (x y : Z) :
  sized N (device w) -> 0 <= x < N -> 0 <= y < N ->
  readBuf (getBuf (device (updateGrid N W w)) ((step w + 1) mod 2)) (y * N + x)
  = nextColor (Vec2 N N) (getBuf (device w) (step w mod 2)) (Vec2 x y).
Proof.
  intros Hsized Hx Hy. unfold readBuf. now rewrite transition_cell.
Qed.

(** Any order of the invocations of the dispatch of a tick leaves the
    device in the same state. *)
Lemma schedule_irrelevant (s : storage) (k : Z) (schedule : list vec2) :
  schedule ≡ₚ invocationIds W (workgroupCount N W) (workgroupCount N W) ->
  fold_left (invoke N (bindGroupAt (k mod 2))) schedule s
  = runComputePass N W (bindGroupAt (k mod 2))
      (workgroupCount N W) (workgroupCount N W) s.
Proof.
  intros Hperm. unfold runComputePass. rewrite bindGroupAt_parity.
  set (group := {| binding1 := k mod 2; binding2 := (k + 1) mod 2 |}).
  set (ids := invocationIds W (workgroupCount N W) (workgroupCount N W)) in *.
  destruct (dispatch_buffers N group schedule s (parity_distinct k)) as [Hr Hw].
  destruct (dispatch_buffers N group ids s (parity_distinct k)) as [Hr' Hw'].
  cbn [group binding1 binding2] in Hr, Hw, Hr', Hw'.
  assert (Hwrite : getBuf (fold_left (invoke N group) schedule s) ((k + 1) mod 2)
                   = getBuf (fold_left (invoke N group) ids s) ((k + 1) mod 2)).
  { rewrite Hw, Hw'. symmetry.
    apply (stores_any_order
             (fun cell => Z.to_nat (SimulationShader.cellIndex (Vec2 N N) cell))
             (nextColor (Vec2 N N) (getBuf s (k mod 2)))).
    - now symmetry.
    - intros [x y] [x' y'] Hc Hc' Hidx. subst ids.
      apply invocationIds_spec in Hc, Hc'.
      rewrite workgroups_cover in Hc, Hc' by assumption. cbn [vx vy] in Hc, Hc'.
      rewrite !(cellIndex_inside N N_pos N_fits) in Hidx by lia.
      assert (Heq : y * N + x = y' * N + x') by nia.
      destruct (cellIndex_inj N N_pos N_fits x y x' y') as [-> ->];
        [lia | lia | lia | lia | exact Heq |].
      reflexivity. }
  assert (Hread : getBuf (fold_left (invoke N group) schedule s) (k mod 2)
                  = getBuf (fold_left (invoke N group) ids s) (k mod 2))
    by now rewrite Hr, Hr'.
  exact (storage_eq _ _ k Hread Hwrite).
Qed.

(** C3. A cell of the grid with exactly two non-zero neighbours has, in the
    buffer written by the tick, the value it has in the buffer the tick
    reads, whatever that value is. *)
Theorem C3_two_neighbours_keep_value (w : world) (x y : Z) :
  sized N (device w) -> 0 <= x < N -> 0 <= y < N ->
  SimulationShader.countNonZero
    (SimulationShader.neighbourColors (Vec2 N N)
       (getBuf (device w) (step w mod 2)) (Vec2 x y)) = 2 ->
  readBuf (getBuf (device (updateGrid N W w)) ((step w + 1) mod 2)) (y * N + x)
  = readBuf (getBuf (device w) (step w mod 2)) (y * N + x).
Proof.
  intros Hsized Hx Hy Hcount. rewrite transition_read by assumption.
  unfold nextColor. rewrite Hcount. cbn [Z.eqb Pos.eqb].
  now rewrite (cellIndex_inside N N_pos N_fits) by assumption.
Qed.

(** C4. A cell of the grid whose number of non-zero neighbours is neither
    2 nor 3 (the count is always between 0 and 8) holds 0 in the buffer
    written by the tick: the tick stores a 0 at the cell's index, whatever
    the cell's own value and whatever the written buffer held before. *)
Theorem C4_other_counts_write_zero (w : world) (x y : Z) :
  sized N (device w) -> 0 <= x < N -> 0 <= y < N ->
  SimulationShader.countNonZero
    (SimulationShader.neighbourColors (Vec2 N N)
       (getBuf (device w) (step w mod 2)) (Vec2 x y)) <> 2 ->
  SimulationShader.countNonZero
    (SimulationShader.neighbourColors (Vec2 N N)
       (getBuf (device w) (step w mod 2)) (Vec2 x y)) <> 3 ->
  getBuf (device (updateGrid N W w)) ((step w + 1) mod 2) !! Z.to_nat (y * N + x)
  = Some 0
  /\ 0 <= SimulationShader.countNonZero
            (SimulationShader.neighbourColors (Vec2 N N)
               (getBuf (device w) (step w mod 2)) (Vec2 x y)) <= 8.
Proof.
  intros Hsized Hx Hy H2 H3. split.
  - rewrite transition_cell by assumption. f_equal. unfold nextColor.
    destruct (Z.eqb_spec (SimulationShader.countNonZero
      (SimulationShader.neighbourColors (Vec2 N N)
         (getBuf (device w) (step w mod 2)) (Vec2 x y))) 2); [contradiction |].
    destruct (Z.eqb_spec (SimulationShader.countNonZero
      (SimulationShader.neighbourColors (Vec2 N N)
         (getBuf (device w) (step w mod 2)) (Vec2 x y))) 3); [contradiction |].
    reflexivity.
  - rewrite countNonZero_spec by apply neighbourColors_length.
    pose proof (length_filter (fun c => c <> 0)
                  (SimulationShader.neighbourColors (Vec2 N N)
                     (getBuf (device w) (step w mod 2)) (Vec2 x y))) as Hle.
    rewrite neighbourColors_length in Hle. lia.
Qed.

Lemma sumOver_perm (f : Z -> Z) (l l' : list Z) :
  l ≡ₚ l' -> sumOver f l = sumOver f l'.
Proof.
  unfold sumOver.
  induction 1 as [| c l l' _ IH | c d l | l l' l'' _ IH1 _ IH2];
    cbn [foldr]; lia.
Qed.

(** On a torus of side at least 2, none of the eight neighbours of a cell
    is the cell itself, so the gathered values do not depend on the cell's
    own value. *)
Lemma neighbours_exclude_cell (x y v : Z) (cellStateIn : list Z) :
  2 ^ 32 mod N = 0 -> 2 <= N -> 0 <= x < N -> 0 <= y < N ->
  SimulationShader.neighbourColors (Vec2 N N)
    (<[Z.to_nat (y * N + x) := v]> cellStateIn) (Vec2 x y)
  = SimulationShader.neighbourColors (Vec2 N N) cellStateIn (Vec2 x y).
Proof.
  intros Hdiv H2 Hx Hy.
  rewrite !neighbourColors_torus by assumption.
  pose proof (mooreNeighbours_inside N x y N_pos Hx Hy) as Hin.
  assert (Hne : Forall (fun '(a, b) => 0 <= b * N + a /\ b * N + a <> y * N + x)
                  (mooreNeighbours N x y)).
  { assert (Hxp : (x + 1) mod N <> x).
    { destruct (Z.eq_dec (x + 1) N) as [Heq | ?];
        [rewrite Heq, Z.mod_same by lia | rewrite Z.mod_small by lia]; lia. }
    assert (Hxm : (x - 1) mod N <> x).
    { destruct (Z.eq_dec x 0) as [-> | ?]; [| rewrite Z.mod_small by lia; lia].
      rewrite <- (Z.mod_unique (0 - 1) N (-1) (N - 1)); lia. }
    assert (Hyp : (y + 1) mod N <> y).
    { destruct (Z.eq_dec (y + 1) N) as [Heq | ?];
        [rewrite Heq, Z.mod_same by lia | rewrite Z.mod_small by lia]; lia. }
    assert (Hym : (y - 1) mod N <> y).
    { destruct (Z.eq_dec y 0) as [-> | ?]; [| rewrite Z.mod_small by lia; lia].
      rewrite <- (Z.mod_unique (0 - 1) N (-1) (N - 1)); lia. }
    unfold mooreNeighbours in *.
    repeat match goal with
           | H : Forall _ (_ :: _) |- _ =>
               apply Forall_cons in H; destruct H as [[? ?] H]
           end.
    repeat (apply Forall_cons; split;
            [split; [nia |];
             intros Heq; apply (cellIndex_inj N N_pos N_fits) in Heq; lia |]).
    apply Forall_nil. exact I. }
  clear Hin. induction Hne as [| [a b] l [Hpos Hab] _ IH]; [reflexivity |].
  cbn [map]. f_equal; [| exact IH].
  unfold readBuf. rewrite list_lookup_insert_ne; [reflexivity |].
  intros Heq. apply Hab. apply Z2Nat.inj in Heq; nia.
Qed.

(** C1. A cell of the grid with exactly three non-zero neighbours has, in
    the buffer written by the tick, the average of its eight gathered
    neighbours as the specification words it: each channel summed in place
    over all eight, the bias 2 at the channel's position added, divided by
    3 and masked to the channel's field, nothing clamped.  The gathered
    values are the same whatever the cell's own value is.  Whenever the
    eight neighbours are one pure red, one pure green, one pure blue and
    five dead cells, in any order, the average is 85 | 85<<8 | 85<<16. *)
Theorem C1_three_neighbours_average (w : world) (x y : Z) :
  2 ^ 32 mod N = 0 -> 2 <= N ->
  sized N (device w) -> 0 <= x < N -> 0 <= y < N ->
  SimulationShader.countNonZero
    (SimulationShader.neighbourColors (Vec2 N N)
       (getBuf (device w) (step w mod 2)) (Vec2 x y)) = 3 ->
  readBuf (getBuf (device (updateGrid N W w)) ((step w + 1) mod 2)) (y * N + x)
  = specAverage
      (SimulationShader.neighbourColors (Vec2 N N)
         (getBuf (device w) (step w mod 2)) (Vec2 x y))
  /\ (forall v,
        SimulationShader.neighbourColors (Vec2 N N)
          (<[Z.to_nat (y * N + x) := v]> (getBuf (device w) (step w mod 2)))
          (Vec2 x y)
        = SimulationShader.neighbourColors (Vec2 N N)
            (getBuf (device w) (step w mod 2)) (Vec2 x y))
  /\ (forall colors,
        colors ≡ₚ [255; Z.shiftl 255 8; Z.shiftl 255 16; 0; 0; 0; 0; 0] ->
        SimulationShader.averageColor colors
        = Z.lor 85 (Z.lor (Z.shiftl 85 8) (Z.shiftl 85 16))).
Proof.
  intros Hdiv H2 Hsized Hx Hy Hcount. split; [| split].
  - rewrite transition_read by assumption. unfold nextColor.
    rewrite Hcount. cbn [Z.eqb Pos.eqb].
    apply averageColor_spec, neighbourColors_length.
  - intros v. now apply neighbours_exclude_cell.
  - intros colors Hperm.
    rewrite averageColor_spec by (now rewrite (Permutation_length Hperm)).
    unfold specAverage. now rewrite !(sumOver_perm _ _ _ Hperm).
Qed.

Lemma nextColor_packed (cellStateIn : list Z) (cell : vec2) :
  Forall packed cellStateIn -> packed (nextColor (Vec2 N N) cellStateIn cell).
Proof.
  intros Hin. unfold nextColor.
  destruct (_ =? 2).
  - unfold readBuf.
    destruct (cellStateIn !! _) as [v |] eqn:Hv; cbn [default].
    + exact (proj1 (Forall_lookup _ _) Hin _ _ Hv).
    + unfold packed. lia.
  - destruct (_ =? 3).
    + rewrite averageColor_spec by apply neighbourColors_length.
      apply specAverage_packed.
    + unfold packed. lia.
Qed.

Lemma updateGrid_sized (w : world) :
  sized N (device w) -> sized N (device (updateGrid N W w)).
Proof.
  intros Hsized.
  assert (Hlen : forall k, length (getBuf (device (updateGrid N W w)) k)
                           = Z.to_nat (N * N)).
  { intros k. rewrite updateGrid_device, bindGroupAt_parity. unfold runComputePass.
    destruct (dispatch_buffers N
                {| binding1 := step w mod 2; binding2 := (step w + 1) mod 2 |}
                (invocationIds W (workgroupCount N W) (workgroupCount N W))
                (device w) (parity_distinct (step w))) as [Hin Hout].
    cbn [binding1 binding2] in Hin, Hout.
    destruct (Bool.bool_dec (k =? 0) (step w mod 2 =? 0)) as [Hk | Hk].
    - replace (getBuf _ k) with (getBuf (device w) (step w mod 2)).
      + now apply sized_getBuf.
      + rewrite <- Hin. unfold getBuf. now rewrite Hk.
    - pose proof (parity_distinct (step w)) as Hne.
      replace (getBuf _ k)
        with (getBuf (fold_left
                        (invoke N {| binding1 := step w mod 2;
                                     binding2 := (step w + 1) mod 2 |})
                        (invocationIds W (workgroupCount N W) (workgroupCount N W))
                        (device w)) ((step w + 1) mod 2)).
      + rewrite Hout, stores_length. now apply sized_getBuf.
      + unfold getBuf.
        destruct (k =? 0), (step w mod 2 =? 0), ((step w + 1) mod 2 =? 0);
          congruence. }
  split; [exact (Hlen 0) | exact (Hlen 1)].
Qed.

(** The buffer a tick writes has a value at every cell, and these values
    have their top byte zero when those of the read buffer have. *)
Lemma written_packed (w : world) :
  sized N (device w) ->
  Forall packed (getBuf (device w) (step w mod 2)) ->
  Forall packed (getBuf (device (updateGrid N W w)) ((step w + 1) mod 2)).
Proof.
  intros Hsized Hin.
  assert (Hlen : length (getBuf (device (updateGrid N W w)) ((step w + 1) mod 2))
                 = Z.to_nat (N * N))
    by (apply sized_getBuf, updateGrid_sized, Hsized).
  apply Forall_lookup. intros i v Hv.
  assert (Hi : (i < Z.to_nat (N * N))%nat)
    by (rewrite <- Hlen; eapply lookup_lt_Some, Hv).
  assert (Hxy : Z.of_nat i = Z.of_nat i / N * N + Z.of_nat i mod N)
    by (rewrite (Z.div_mod (Z.of_nat i) N) at 1 by lia; lia).
  assert (Hx : 0 <= Z.of_nat i mod N < N) by (apply Z.mod_pos_bound; lia).
  assert (Hy : 0 <= Z.of_nat i / N < N).
  { split; [apply Z.div_pos; lia | apply Z.div_lt_upper_bound; lia]. }
  pose proof (transition_cell w _ _ Hsized Hx Hy) as Hcell.
  rewrite <- Hxy, Nat2Z.id, Hv in Hcell. injection Hcell as ->.
  now apply nextColor_packed.
Qed.

(** C5. When every cell of the buffer a tick reads has its top byte zero
    (three channels in [0,255] and nothing else), so has every cell of the
    buffer the tick writes, and that buffer has a value at each of the N*N
    cells.  In the birth case no channel leaks into another: each channel
    of the average is computed from that same channel of the neighbours. *)
Theorem C5_channels_stay_bytes (w : world) :
  sized N (device w) ->
  Forall packed (getBuf (device w) (step w mod 2)) ->
  Forall packed (getBuf (device (updateGrid N W w)) ((step w + 1) mod 2))
  /\ length (getBuf (device (updateGrid N W w)) ((step w + 1) mod 2))
     = Z.to_nat (N * N)
  /\ (forall colors, length colors = 8%nat ->
      packed (SimulationShader.averageColor colors)
      /\ red (SimulationShader.averageColor colors)
         = ((sumOver red colors + 2) / 3) mod 256
      /\ green (SimulationShader.averageColor colors)
         = ((sumOver green colors + 2) / 3) mod 256
      /\ blue (SimulationShader.averageColor colors)
         = ((sumOver blue colors + 2) / 3) mod 256).
Proof.
  intros Hsized Hin. split; [| split].
  - now apply written_packed.
  - apply sized_getBuf, updateGrid_sized, Hsized.
  - intros colors Hcolors. split.
    + rewrite averageColor_spec by assumption. apply specAverage_packed.
    + now apply averageColor_channels.
Qed.

End Transition.
Lemma C3_two_neighbours_keep_value_witness :
  readBuf (getBuf (device (updateGrid 4 2 exampleWorld))
             ((step exampleWorld + 1) mod 2)) (0 * 4 + 1)
  = readBuf (getBuf (device exampleWorld) (step exampleWorld mod 2)) (0 * 4 + 1).
Proof.
  apply (C3_two_neighbours_keep_value 4 2); first [lia | reflexivity | split; reflexivity].
Defined.

(** The red cell (0, 0) of the example has one live neighbour; buffer B
    holds 7 at its index before the tick. *)
Lemma C4_other_counts_write_zero_witness :
  getBuf (device (updateGrid 4 2 exampleStaleWorld))
    ((step exampleStaleWorld + 1) mod 2) !! Z.to_nat (0 * 4 + 0)
  = Some 0
  /\ 0 <= SimulationShader.countNonZero
            (SimulationShader.neighbourColors (Vec2 4 4)
               (getBuf (device exampleStaleWorld) (step exampleStaleWorld mod 2))
               (Vec2 0 0)) <= 8.
Proof.
  apply (C4_other_counts_write_zero 4 2);
    first [lia | reflexivity | split; reflexivity | vm_compute; discriminate].
Defined.

(** In that example the cell is alive and the written buffer is not zero
    at its index before the tick. *)
Remark stale_example :
  readBuf (getBuf (device exampleStaleWorld) 0) 0 = 255
  /\ getBuf (device exampleStaleWorld) 1 !! 0%nat = Some 7
  /\ SimulationShader.countNonZero
       (SimulationShader.neighbourColors (Vec2 4 4)
          (getBuf (device exampleStaleWorld) 0) (Vec2 0 0)) = 1.
Proof. repeat split. Qed.

Lemma C1_three_neighbours_average_witness :
  readBuf (getBuf (device (updateGrid 4 2 exampleWorld))
             ((step exampleWorld + 1) mod 2)) (1 * 4 + 1)
  = specAverage
      (SimulationShader.neighbourColors (Vec2 4 4)
         (getBuf (device exampleWorld) (step exampleWorld mod 2)) (Vec2 1 1))
  /\ (forall v,
        SimulationShader.neighbourColors (Vec2 4 4)
          (<[Z.to_nat (1 * 4 + 1) := v]>
             (getBuf (device exampleWorld) (step exampleWorld mod 2)))
          (Vec2 1 1)
        = SimulationShader.neighbourColors (Vec2 4 4)
            (getBuf (device exampleWorld) (step exampleWorld mod 2)) (Vec2 1 1))
  /\ (forall colors,
        colors ≡ₚ [255; Z.shiftl 255 8; Z.shiftl 255 16; 0; 0; 0; 0; 0] ->
        SimulationShader.averageColor colors
        = Z.lor 85 (Z.lor (Z.shiftl 85 8) (Z.shiftl 85 16))).
Proof.
  apply (C1_three_neighbours_average 4 2);
    first [lia | reflexivity | split; reflexivity].
Defined.

Lemma C5_channels_stay_bytes_witness :
  Forall packed (getBuf (device (updateGrid 4 2 exampleWorld))
                   ((step exampleWorld + 1) mod 2))
  /\ length (getBuf (device (updateGrid 4 2 exampleWorld))
               ((step exampleWorld + 1) mod 2))
     = Z.to_nat (4 * 4)
  /\ (forall colors, length colors = 8%nat ->
      packed (SimulationShader.averageColor colors)
      /\ red (SimulationShader.averageColor colors)
         = ((sumOver red colors + 2) / 3) mod 256
      /\ green (SimulationShader.averageColor colors)
         = ((sumOver green colors + 2) / 3) mod 256
      /\ blue (SimulationShader.averageColor colors)
         = ((sumOver blue colors + 2) / 3) mod 256).
Proof.
  apply (C5_channels_stay_bytes 4 2);
    first [lia | reflexivity | split; reflexivity
          | repeat constructor; unfold packed; lia].
Defined.

(** The constants of the script satisfy the assumptions made above on the
    side of the grid and on the workgroup size. *)
Lemma script_constants :
  0 < Const.WORKGROUP_SIZE
  /\ Const.GRID_SIZE mod Const.WORKGROUP_SIZE = 0
  /\ 2 <= Const.GRID_SIZE
  /\ Const.GRID_SIZE * Const.GRID_SIZE <= 2 ^ 32
  /\ 2 ^ 32 mod Const.GRID_SIZE = 0.
Proof. unfold Const.WORKGROUP_SIZE, Const.GRID_SIZE. repeat split; lia. Qed.

(** The mask truncates, it does not clamp: eight neighbours with a full
    red channel give 680 mod 256, not 255. *)
Remark averageColor_truncates :
  SimulationShader.averageColor (replicate 8 255) = 168.
Proof. reflexivity. Qed.

(** ** Separation of the two buffers *)

Lemma updateGrid_read_unchanged (N W : Z) (w : world) :
  getBuf (device (updateGrid N W w)) (step w mod 2)
  = getBuf (device w) (step w mod 2).
Proof.
  rewrite updateGrid_device, bindGroupAt_parity. unfold runComputePass.
  exact (proj1 (dispatch_buffers N
                  {| binding1 := step w mod 2; binding2 := (step w + 1) mod 2 |}
                  _ (device w) (parity_distinct (step w)))).
Qed.

(** C7. The tick taken at any value of the step counter leaves the buffer
    it reads as it was: each invocation under the tick's bind group leaves
    that buffer untouched, and so does the whole tick.  In both bind groups
    the read-only binding and the writable binding are different buffers. *)
Theorem C7_read_buffer_unchanged (N W : Z) (w : world) :
  getBuf (device (updateGrid N W w)) (step w mod 2)
  = getBuf (device w) (step w mod 2)
  /\ (forall (s : storage) (cell : vec2),
        getBuf (invoke N (bindGroupAt (step w mod 2)) s cell) (step w mod 2)
        = getBuf s (step w mod 2))
  /\ Forall (fun group => binding1 group <> binding2 group) bindGroups.
Proof.
  split; [| split].
  - apply updateGrid_read_unchanged.
  - intros s cell. rewrite bindGroupAt_parity. unfold invoke. cbn [binding1 binding2].
    apply getBuf_setBuf_other, parity_distinct.
  - repeat constructor; cbn; discriminate.
Qed.

(** Were the two bindings of a group the same buffer, an invocation would
    overwrite the generation it reads. *)
Remark aliased_group_overwrites_input :
  getBuf (invoke 4 {| binding1 := 0; binding2 := 0 |} (device exampleWorld)
            (Vec2 0 0)) 0
  <> getBuf (device exampleWorld) 0.
Proof. vm_compute. discriminate. Qed.

(** ** The scheduler *)

Lemma ticks_step (N W : Z) (k : nat) (w : world) :
  step (ticks N W k w) = step w + Z.of_nat k.
Proof.
  induction k as [| k IH]; [cbn; lia |].
  change (ticks N W (S k) w) with (updateGrid N W (ticks N W k w)).
  rewrite updateGrid_step, IH. lia.
Qed.

(** ** Seeding *)

Lemma Qlt_bool_iff (a b : Q) : Qlt_bool a b = true <-> (a < b)%Q.
Proof.
  unfold Qlt_bool. rewrite negb_true_iff, <- not_true_iff_false, Qle_bool_iff.
  split; [apply Qnot_le_lt | apply Qlt_not_le].
Qed.

(** The literals are the binary64 numbers next to the decimals they are
    written as: the first two lie just above, the third just below. *)
Lemma seed_literals :
  (lit_0_04 == (4 # 100) + (3 # 3602879701896396800))%Q
  /\ (lit_0_08 == (8 # 100) + (3 # 1801439850948198400))%Q
  /\ (lit_0_12 == (12 # 100) - (1 # 225179981368524800))%Q.
Proof. repeat split; vm_compute; reflexivity. Qed.

Lemma seedCell_cases (r : Q) :
  seedCell r
  = if Qlt_bool r lit_0_04 then 255
    else if Qlt_bool r lit_0_08 then 255 * 2 ^ 8
    else if Qlt_bool r lit_0_12 then 255 * 2 ^ 16
    else 0.
Proof.
  unfold seedCell.
  destruct (Qlt_bool r lit_0_04); [reflexivity |].
  destruct (Qlt_bool r lit_0_08); [reflexivity |].
  destruct (Qlt_bool r lit_0_12); reflexivity.
Qed.

Lemma cellStateArray_length (N : Z) (random : nat -> Q) :
  length (cellStateArray N random) = Z.to_nat (N * N).
Proof.
  unfold cellStateArray.
  rewrite (stores_length (fun i => i) (fun i => seedCell (random i))).
  apply length_replicate.
Qed.

Lemma cellStateArray_lookup (N : Z) (random : nat -> Q) (i : nat) :
  (i < Z.to_nat (N * N))%nat ->
  cellStateArray N random !! i = Some (seedCell (random i)).
Proof.
  intros Hi. unfold cellStateArray.
  apply (stores_lookup (fun i => i) (fun i => seedCell (random i))).
  - now rewrite length_replicate.
  - exists i. split; [| reflexivity].
    apply in_seq. rewrite length_replicate. lia.
  - now intros c _ ->.
Qed.



(** ** Binary32 rounding *)

Lemma roundEven_close (m : Q) :
  (m - (1 # 2) <= inject_Z (roundEven m) /\ inject_Z (roundEven m) <= m + (1 # 2))%Q.
Proof.
  unfold roundEven.
  pose proof (Qfloor_le m) as Hlo. pose proof (Qlt_floor m) as Hhi.
  rewrite inject_Z_plus in Hhi. change (inject_Z 1) with 1%Q in Hhi.
  destruct (Qcompare_spec (m - inject_Z (Qfloor m)) (1 # 2)) as [He | Hl | Hg].
  - destruct (Z.even (Qfloor m));
      rewrite ?inject_Z_plus; change (inject_Z 1) with 1%Q; lra.
  - lra.
  - rewrite inject_Z_plus. change (inject_Z 1) with 1%Q. lra.
Qed.

Lemma roundEven_integer (m : Q) (z : Z) :
  (m == inject_Z z)%Q -> roundEven m = z.
Proof.
  intros Hm. unfold roundEven.
  assert (Hf : Qfloor m = z) by (rewrite Hm; apply Qfloor_Z).
  assert (Hlt : (m - inject_Z (Qfloor m) < 1 # 2)%Q) by (rewrite Hf, Hm; lra).
  destruct (Qcompare_spec (m - inject_Z (Qfloor m)) (1 # 2)) as [He | Hl | Hg];
    [lra | exact Hf | lra].
Qed.

Lemma roundEven_nonneg (m : Q) : (0 <= m)%Q -> 0 <= roundEven m.
Proof.
  intros Hm. unfold roundEven.
  assert (0 <= Qfloor m) by (change 0 with (Qfloor 0); now apply Qfloor_resp_le).
  destruct (_ ?= _)%Q; [destruct (Z.even _) | |]; lia.
Qed.

Lemma pow2_pos (z : Z) : (0 < 2 ^ z)%Q.
Proof. apply Qpower_0_lt. reflexivity. Qed.

Lemma pow2_nonzero : ~ (2 == 0)%Q.
Proof. discriminate. Qed.

Lemma pow2_integer (z : Z) : 0 <= z -> (2 ^ z == inject_Z (2 ^ z))%Q.
Proof. intros Hz. now rewrite (Zpower_Qpower 2 z Hz). Qed.

Lemma pow2_split (a b : Z) :
  0 <= a -> 0 <= b -> (2 ^ (a - b) == inject_Z (2 ^ a) / inject_Z (2 ^ b))%Q.
Proof.
  intros Ha Hb. unfold Z.sub.
  rewrite Qpower_plus, Qpower_opp, !pow2_integer by (assumption || apply pow2_nonzero).
  reflexivity.
Qed.

(** A fraction between two quotients of integers. *)
Lemma quotient_le (A B : Z) (q : Q) :
  0 < A -> 0 < B ->
  (inject_Z A <= inject_Z (Qnum q))%Q -> (inject_Z (Zpos (Qden q)) <= inject_Z B)%Q ->
  (inject_Z A / inject_Z B <= q)%Q.
Proof.
  intros HA HB Hn Hd.
  assert (HB' : (0 < inject_Z B)%Q) by (change 0%Q with (inject_Z 0); now rewrite <- Zlt_Qlt).
  assert (HA' : (0 < inject_Z A)%Q) by (change 0%Q with (inject_Z 0); now rewrite <- Zlt_Qlt).
  assert (Hdp : (0 < inject_Z (Zpos (Qden q)))%Q) by reflexivity.
  apply Qle_shift_div_r; [exact HB' |].
  assert (Hq : (q * inject_Z (Zpos (Qden q)) == inject_Z (Qnum q))%Q).
  { destruct q as [n d]. cbn [Qnum Qden]. rewrite (Qmake_Qdiv n d). field. discriminate. }
  assert (Hq0 : (0 < q)%Q).
  { assert (0 < q * inject_Z (Zpos (Qden q)))%Q by (rewrite Hq; lra).
    destruct (Qlt_le_dec 0 q) as [? | Hle]; [assumption | exfalso]. nra. }
  nra.
Qed.

Lemma quotient_gt (A B : Z) (q : Q) :
  0 < A -> 0 < B ->
  (inject_Z (Qnum q) < inject_Z A)%Q -> (inject_Z B <= inject_Z (Zpos (Qden q)))%Q ->
  (q < inject_Z A / inject_Z B)%Q.
Proof.
  intros HA HB Hn Hd.
  assert (HB' : (0 < inject_Z B)%Q) by (change 0%Q with (inject_Z 0); now rewrite <- Zlt_Qlt).
  assert (HA' : (0 < inject_Z A)%Q) by (change 0%Q with (inject_Z 0); now rewrite <- Zlt_Qlt).
  assert (Hdp : (0 < inject_Z (Zpos (Qden q)))%Q) by reflexivity.
  apply Qlt_shift_div_l; [exact HB' |].
  assert (Hq : (q * inject_Z (Zpos (Qden q)) == inject_Z (Qnum q))%Q).
  { destruct q as [n d]. cbn [Qnum Qden]. rewrite (Qmake_Qdiv n d). field. discriminate. }
  destruct (Qlt_le_dec 0 q) as [Hq0 | Hle]; nra.
Qed.

(** [ilog2] is the exponent of the binade. *)
Lemma ilog2_spec (q : Q) :
  (0 < q)%Q -> (2 ^ ilog2 q <= q /\ q < 2 ^ (ilog2 q + 1))%Q.
Proof.
  intros Hq.
  assert (Hn : 0 < Qnum q) by (destruct q as [n d]; unfold Qlt in Hq; cbn in *; lia).
  pose proof (Z.log2_spec (Qnum q) Hn) as [Hn1 Hn2].
  pose proof (Z.log2_spec (Zpos (Qden q)) eq_refl) as [Hd1 Hd2].
  pose proof (Z.log2_nonneg (Qnum q)) as Ha.
  pose proof (Z.log2_nonneg (Zpos (Qden q))) as Hb.
  set (a := Z.log2 (Qnum q)) in *. set (b := Z.log2 (Zpos (Qden q))) in *.
  assert (Hpa : 0 < 2 ^ a) by (apply Z.pow_pos_nonneg; lia).
  assert (Hpb : 0 < 2 ^ b) by (apply Z.pow_pos_nonneg; lia).
  assert (Hpa1 : 0 < 2 ^ (a + 1)) by (apply Z.pow_pos_nonneg; lia).
  assert (Hpb1 : 0 < 2 ^ (b + 1)) by (apply Z.pow_pos_nonneg; lia).
  unfold ilog2. fold a b.
  destruct (Qle_bool (2 ^ (a - b)) q) eqn:Htest.
  - split; [now apply Qle_bool_iff |].
    replace (a - b + 1) with ((a + 1) - b) by lia.
    rewrite pow2_split by lia.
    apply quotient_gt; try assumption; rewrite <- ?Zlt_Qlt, <- ?Zle_Qle; lia.
  - split.
    + replace (a - b - 1) with (a - (b + 1)) by lia.
      rewrite pow2_split by lia.
      apply quotient_le; try assumption; rewrite <- ?Zle_Qle; lia.
    + replace (a - b - 1 + 1) with (a - b) by lia.
      apply Qnot_le_lt. intros Hle. apply Qle_bool_iff in Hle. congruence.
Qed.

Lemma f32_value (q : Q) :
  ~ (q == 0)%Q ->
  (f32 q == inject_Z (roundEven (q / 2 ^ (Z.max (ilog2 (Qabs q)) (-126) - 23)))
            * 2 ^ (Z.max (ilog2 (Qabs q)) (-126) - 23))%Q.
Proof.
  intros Hq. unfold f32.
  destruct (Qeq_bool q 0) eqn:E; [apply Qeq_bool_iff in E; contradiction |].
  apply Qred_correct.
Qed.

Lemma f32_zero (q : Q) : (q == 0)%Q -> f32 q = 0%Q.
Proof. intros Hq. unfold f32. apply Qeq_bool_iff in Hq. now rewrite Hq. Qed.

(** The rounding error: at most 2^-24 of the magnitude, or half the
    spacing of the subnormal numbers. *)
Lemma f32_error (q B : Q) :
  (Qabs q <= B)%Q ->
  (q - (u24 * B + tiny) <= f32 q /\ f32 q <= q + (u24 * B + tiny))%Q.
Proof.
  intros HB.
  assert (Htiny : (0 < tiny)%Q) by apply pow2_pos.
  pose proof (Qabs_nonneg q) as Habs.
  destruct (Qeq_dec q 0) as [H0 | H0].
  { rewrite (f32_zero q H0), H0. unfold u24. split; nra. }
  rewrite (f32_value q H0).
  assert (Hpos : (0 < Qabs q)%Q).
  { destruct (Qlt_le_dec 0 (Qabs q)) as [? | Hle]; [assumption | exfalso].
    apply H0. apply Qabs_Qle_condition in Hle. lra. }
  set (e := Z.max (ilog2 (Qabs q)) (-126)).
  set (ulp := (2 ^ (e - 23))%Q).
  assert (Hulp : (0 < ulp)%Q) by apply pow2_pos.
  assert (Hhalf : (ulp * (1 # 2) <= u24 * B + tiny)%Q).
  { destruct (Z.max_spec (ilog2 (Qabs q)) (-126)) as [[_ He] | [_ He]]; fold e in He.
    - subst ulp. rewrite He. change (2 ^ (-126 - 23) * (1 # 2))%Q with tiny at 1.
      unfold u24. nra.
    - destruct (ilog2_spec (Qabs q) Hpos) as [Hle _]. rewrite <- He in Hle.
      subst ulp. unfold Z.sub. rewrite Qpower_plus by apply pow2_nonzero.
      change (2 ^ (- (23)))%Q with (1 # 8388608). unfold u24.
      set (x := (2 ^ e)%Q) in *. nra. }
  destruct (roundEven_close (q / ulp)) as [Hlo Hhi].
  set (r := inject_Z (roundEven (q / ulp))) in *.
  assert (Hq : (q / ulp * ulp == q)%Q) by (field; lra).
  set (m := (q / ulp)%Q) in *.
  split; nra.
Qed.

Lemma Qred_integer (q : Q) (z : Z) : (q == inject_Z z)%Q -> Qred q = inject_Z z.
Proof.
  intros Hq. rewrite (Qred_complete _ _ Hq). apply Qred_identity.
  cbn. apply Z.gcd_1_r.
Qed.

(** Integers of magnitude below 2^24 are binary32 numbers. *)
Lemma f32_integer (z : Z) : Z.abs z < 2 ^ 24 -> f32 (inject_Z z) = inject_Z z.
Proof.
  intros Hz. destruct (Z.eq_dec z 0) as [-> | Hnz]; [reflexivity |].
  unfold f32.
  destruct (Qeq_bool (inject_Z z) 0) eqn:E.
  { apply Qeq_bool_iff in E. exfalso. apply Hnz.
    apply inject_Z_injective. exact E. }
  assert (Habs : 0 < Z.abs z) by lia.
  pose proof (Z.log2_spec (Z.abs z) Habs) as [Hl1 Hl2].
  pose proof (Z.log2_nonneg (Z.abs z)) as Ha.
  assert (Ha23 : Z.log2 (Z.abs z) < 24) by (apply Z.log2_lt_pow2; lia).
  assert (He : ilog2 (Qabs (inject_Z z)) = Z.log2 (Z.abs z)).
  { unfold ilog2. cbn [Qabs inject_Z Qnum Qden]. change (Z.log2 1) with 0.
    rewrite Z.sub_0_r.
    assert (Ht : Qle_bool (2 ^ Z.log2 (Z.abs z)) (Z.abs z # 1) = true).
    { apply Qle_bool_iff. rewrite pow2_integer by lia.
      change (Z.abs z # 1) with (inject_Z (Z.abs z)). rewrite <- Zle_Qle. lia. }
    now rewrite Ht. }
  rewrite He, Z.max_l by lia.
  set (a := Z.log2 (Z.abs z)) in *.
  assert (Hm : (inject_Z z / 2 ^ (a - 23) == inject_Z (z * 2 ^ (23 - a)))%Q).
  { replace (a - 23) with (- (23 - a)) by lia.
    rewrite Qpower_opp, pow2_integer, inject_Z_mult by lia.
    field. rewrite <- pow2_integer by lia. apply Qpower_not_0. discriminate. }
  rewrite (roundEven_integer _ _ Hm).
  apply Qred_integer.
  replace (a - 23) with (- (23 - a)) by lia.
  rewrite Qpower_opp, pow2_integer, inject_Z_mult by lia.
  field. rewrite <- pow2_integer by lia. apply Qpower_not_0. discriminate.
Qed.

Lemma f32_nonneg (q : Q) : (0 <= q)%Q -> (0 <= f32 q)%Q.
Proof.
  intros Hq. destruct (Qeq_dec q 0) as [H0 | H0]; [rewrite (f32_zero q H0); lra |].
  rewrite (f32_value q H0).
  set (ulp := (2 ^ _)%Q). assert (Hulp : (0 < ulp)%Q) by apply pow2_pos.
  apply Qmult_le_0_compat; [| lra].
  change 0%Q with (inject_Z 0). rewrite <- Zle_Qle. apply roundEven_nonneg.
  apply Qle_shift_div_l; [exact Hulp | lra].
Qed.

Lemma ilog2_unique (q : Q) (e : Z) :
  (2 ^ e <= q)%Q -> (q < 2 ^ (e + 1))%Q -> ilog2 q = e.
Proof.
  intros Hlo Hhi.
  assert (Hq : (0 < q)%Q) by (pose proof (pow2_pos e); lra).
  destruct (ilog2_spec q Hq) as [Hlo' Hhi'].
  assert (H1 : ilog2 q < e + 1).
  { apply (Qpower_lt_compat_l_inv 2); [lra | reflexivity]. }
  assert (H2 : e < ilog2 q + 1).
  { apply (Qpower_lt_compat_l_inv 2); [lra | reflexivity]. }
  lia.
Qed.

Lemma ilog2_comp (q q' : Q) : (0 < q)%Q -> (q == q')%Q -> ilog2 q = ilog2 q'.
Proof.
  intros Hq Heq. assert (Hq' : (0 < q')%Q) by (rewrite <- Heq; exact Hq).
  destruct (ilog2_spec q' Hq') as [Hlo Hhi].
  apply ilog2_unique; rewrite Heq; assumption.
Qed.

Lemma roundEven_comp (m m' : Q) : (m == m')%Q -> roundEven m = roundEven m'.
Proof.
  intros Hm. unfold roundEven. rewrite (Qfloor_comp _ _ Hm).
  assert (Hc : (m - inject_Z (Qfloor m') ?= 1 # 2)%Q
               = (m' - inject_Z (Qfloor m') ?= 1 # 2)%Q)
    by (apply Qcompare_comp; [rewrite Hm |]; reflexivity).
  now rewrite Hc.
Qed.

(** The rounding depends on the value of its argument, not on the
    fraction that denotes it. *)
Lemma f32_comp (q q' : Q) : (q == q')%Q -> f32 q = f32 q'.
Proof.
  intros Heq. destruct (Qeq_dec q 0) as [H0 | H0].
  { rewrite (f32_zero q H0), (f32_zero q'); [reflexivity | now rewrite <- Heq]. }
  assert (H0' : ~ (q' == 0)%Q) by now rewrite <- Heq.
  unfold f32.
  destruct (Qeq_bool q 0) eqn:E; [apply Qeq_bool_iff in E; contradiction |].
  destruct (Qeq_bool q' 0) eqn:E'; [apply Qeq_bool_iff in E'; contradiction |].
  assert (Hpos : (0 < Qabs q)%Q).
  { pose proof (Qabs_nonneg q).
    destruct (Qlt_le_dec 0 (Qabs q)) as [? | Hle]; [assumption | exfalso].
    apply H0. apply Qabs_Qle_condition in Hle. lra. }
  rewrite (ilog2_comp (Qabs q) (Qabs q') Hpos) by now rewrite Heq.
  set (ulp := (2 ^ _)%Q).
  rewrite (roundEven_comp (q / ulp) (q' / ulp)) by now rewrite Heq.
  reflexivity.
Qed.

(** The rounding error of a number below 2^(E+1) in magnitude. *)
Lemma f32_error_binade (q : Q) (E : Z) :
  -126 <= E -> (Qabs q < 2 ^ (E + 1))%Q ->
  (q - 2 ^ (E - 24) <= f32 q /\ f32 q <= q + 2 ^ (E - 24))%Q.
Proof.
  intros HE Hq.
  assert (Hpow : (0 < 2 ^ (E - 24))%Q) by apply pow2_pos.
  destruct (Qeq_dec q 0) as [H0 | H0].
  { rewrite (f32_zero q H0), H0. split; lra. }
  rewrite (f32_value q H0).
  assert (Hpos : (0 < Qabs q)%Q).
  { pose proof (Qabs_nonneg q).
    destruct (Qlt_le_dec 0 (Qabs q)) as [? | Hle]; [assumption | exfalso].
    apply H0. apply Qabs_Qle_condition in Hle. lra. }
  destruct (ilog2_spec (Qabs q) Hpos) as [Hlo _].
  assert (He : Z.max (ilog2 (Qabs q)) (-126) <= E).
  { assert (ilog2 (Qabs q) < E + 1)
      by (apply (Qpower_lt_compat_l_inv 2); [lra | reflexivity]).
    lia. }
  set (e := Z.max (ilog2 (Qabs q)) (-126)) in *.
  set (ulp := (2 ^ (e - 23))%Q).
  assert (Hulp : (0 < ulp)%Q) by apply pow2_pos.
  assert (Hhalf : (ulp * (1 # 2) <= 2 ^ (E - 24))%Q).
  { subst ulp. replace (E - 24) with ((E - 23) + -1) by lia.
    rewrite (Qpower_plus 2 (E - 23)) by apply pow2_nonzero.
    change (2 ^ (-1))%Q with (1 # 2).
    assert (2 ^ (e - 23) <= 2 ^ (E - 23))%Q
      by (apply Qpower_le_compat_l; [lia | discriminate]).
    nra. }
  destruct (roundEven_close (q / ulp)) as [Hl Hh].
  set (r := inject_Z (roundEven (q / ulp))) in *.
  assert (Hqq : (q / ulp * ulp == q)%Q) by (field; lra).
  set (m := (q / ulp)%Q) in *.
  split; nra.
Qed.

Lemma Qfloor_between (x : Q) (k : Z) :
  (inject_Z k <= x)%Q -> (x < inject_Z (k + 1))%Q -> Qfloor x = k.
Proof.
  intros Hlo Hhi.
  assert (k <= Qfloor x) by (rewrite <- (Qfloor_Z k); now apply Qfloor_resp_le).
  assert (Qfloor x < k + 1).
  { rewrite Zlt_Qlt. pose proof (Qfloor_le x). lra. }
  lia.
Qed.

(** Division of an integer below N*N by N, floored or truncated, and the
    remainder, are exact in binary32 when N*N is at most 2^24. *)
Lemma fdiv_floor (N a : Z) :
  0 < N -> N * N <= 2 ^ 24 -> 0 <= a < N * N ->
  Qfloor (fdiv (inject_Z a) (inject_Z N)) = a / N
  /\ (0 <= fdiv (inject_Z a) (inject_Z N))%Q.
Proof.
  intros HN Hfit Ha.
  assert (Hu : (0 < inject_Z N)%Q)
    by (change 0%Q with (inject_Z 0); rewrite <- Zlt_Qlt; lia).
  assert (Ha0 : (0 <= inject_Z a)%Q)
    by (change 0%Q with (inject_Z 0); rewrite <- Zle_Qle; lia).
  assert (Hq0 : (0 <= inject_Z a / inject_Z N)%Q)
    by (apply Qle_shift_div_l; [exact Hu | lra]).
  split; [| now apply f32_nonneg].
  unfold fdiv.
  pose proof (Z.div_mod a N ltac:(lia)) as Hdm.
  pose proof (Z.mod_pos_bound a N HN) as Hr.
  assert (Hk : 0 <= a / N < N).
  { split; [apply Z.div_pos; lia | apply Z.div_lt_upper_bound; lia]. }
  set (k := a / N) in *. set (r := a mod N) in *.
  assert (Hq : (inject_Z a / inject_Z N == inject_Z k + inject_Z r / inject_Z N)%Q).
  { rewrite Hdm, inject_Z_plus, inject_Z_mult. field. lra. }
  destruct (Z.eq_dec r 0) as [Hr0 | Hr0].
  - rewrite (f32_comp _ (inject_Z k)); [| rewrite Hq, Hr0; field; lra].
    rewrite f32_integer by lia. apply Qfloor_Z.
  - (* 2^E < N <= 2^(E+1) *)
    assert (HN2 : 2 <= N) by lia.
    pose proof (Z.log2_spec (N - 1) ltac:(lia)) as [HE1 HE2].
    pose proof (Z.log2_nonneg (N - 1)) as HE0.
    set (E := Z.log2 (N - 1)) in *.
    assert (HpE : 0 < 2 ^ E) by (apply Z.pow_pos_nonneg; lia).
    assert (Hinv : (inject_Z 1 <= inject_Z r)%Q) by (rewrite <- Zle_Qle; lia).
    assert (Hinv2 : (inject_Z r <= inject_Z N - inject_Z 1)%Q).
    { change (inject_Z N - inject_Z 1)%Q with (inject_Z N + - inject_Z 1)%Q.
      rewrite <- inject_Z_opp, <- inject_Z_plus, <- Zle_Qle. lia. }
    change (inject_Z 1) with 1%Q in Hinv, Hinv2.
    assert (Hv : (0 < / inject_Z N)%Q) by now apply Qinv_lt_0_compat.
    assert (Huv : (inject_Z N * / inject_Z N == 1)%Q) by (apply Qmult_inv_r; lra).
    assert (Hkq : (inject_Z k + 1 <= inject_Z N)%Q).
    { change 1%Q with (inject_Z 1). rewrite <- inject_Z_plus, <- Zle_Qle. lia. }
    assert (Hk0 : (0 <= inject_Z k)%Q)
      by (change 0%Q with (inject_Z 0); rewrite <- Zle_Qle; lia).
    assert (HNE : (inject_Z N <= 2 ^ (E + 1))%Q).
    { rewrite pow2_integer by lia. rewrite <- Zle_Qle. lia. }
    assert (HEN : (2 ^ E < inject_Z N)%Q).
    { rewrite pow2_integer by lia. rewrite <- Zlt_Qlt. lia. }
    assert (Herr : (2 ^ (E - 24) * inject_Z N < 1)%Q).
    { replace (E - 24) with (E + -24) by lia.
      rewrite Qpower_plus by apply pow2_nonzero.
      change (2 ^ (-24))%Q with (1 # 16777216).
      assert (HNN : (inject_Z N * inject_Z N <= 16777216)%Q).
      { rewrite <- inject_Z_mult. change 16777216%Q with (inject_Z (2 ^ 24)).
        rewrite <- Zle_Qle. exact Hfit. }
      pose proof (pow2_pos E). set (x := (2 ^ E)%Q) in *. nra. }
    set (q := (inject_Z a / inject_Z N)%Q) in *.
    unfold Qdiv in Hq. set (v := (/ inject_Z N)%Q) in *.
    assert (Hqlo : (inject_Z k + v <= q)%Q) by nra.
    assert (Hqhi : (q <= inject_Z k + 1 - v)%Q) by nra.
    assert (Habs : (Qabs q < 2 ^ (E + 1))%Q).
    { rewrite Qabs_pos by lra. lra. }
    destruct (f32_error_binade q E ltac:(lia) Habs) as [Hlo Hhi].
    assert (Hev : (2 ^ (E - 24) < v)%Q).
    { pose proof (pow2_pos (E - 24)). set (t := (2 ^ (E - 24))%Q) in *. nra. }
    apply Qfloor_between.
    + lra.
    + rewrite inject_Z_plus. change (inject_Z 1) with 1%Q. lra.
Qed.

Lemma fmod_exact (N a : Z) :
  0 < N -> N * N <= 2 ^ 24 -> 0 <= a < N * N ->
  fmod (inject_Z a) (inject_Z N) = inject_Z (a mod N)
  /\ ffloor (fdiv (inject_Z a) (inject_Z N)) = inject_Z (a / N).
Proof.
  intros HN Hfit Ha. destruct (fdiv_floor N a HN Hfit Ha) as [Hfl Hnn].
  split; [| unfold ffloor; now rewrite Hfl].
  unfold fmod, ftrunc.
  apply Qle_bool_iff in Hnn. rewrite Hnn, Hfl.
  pose proof (Z.div_mod a N ltac:(lia)) as Hdm.
  pose proof (Z.mod_pos_bound a N HN) as Hr.
  assert (Hk : 0 <= a / N) by (apply Z.div_pos; lia).
  unfold fmul. rewrite <- inject_Z_mult, f32_integer by nia.
  unfold fsub.
  change (inject_Z a - inject_Z (N * (a / N)))%Q
    with (inject_Z a + - inject_Z (N * (a / N)))%Q.
  rewrite <- inject_Z_opp, <- inject_Z_plus, f32_integer by nia.
  f_equal. lia.
Qed.

(** The rounding on numbers whose binary32 is known: 0.7, 1/3 and 1/10,
    ties between two neighbours (to the even one), and the subnormal
    range. *)
Remark f32_samples :
  f32 lit_0_7 = (11744051 # 16777216)%Q
  /\ f32 (1 # 3) = (11184811 # 33554432)%Q
  /\ f32 (1 # 10) = (13421773 # 134217728)%Q
  /\ f32 (inject_Z 16777217) = inject_Z 16777216
  /\ f32 (inject_Z 16777219) = inject_Z 16777220
  /\ f32 (2 ^ (-150)) = 0%Q
  /\ f32 (3 * 2 ^ (-150)) = Qred (2 ^ (-148)).
Proof. repeat apply conj; vm_compute; reflexivity. Qed.

(** [%], [trunc] and the conversion to [u32] on some numbers. *)
Remark fmod_samples :
  fmod 7 2 = 1%Q /\ fmod (- (7)) 2 = (- (1))%Q
  /\ ftrunc (- (5 # 2)) = (- (2))%Q
  /\ toU32 (- (1 # 2)) = 0 /\ toU32 (7 # 2) = 3
  /\ toU32 (inject_Z (2 ^ 40)) = 2 ^ 32 - 1.
Proof. repeat apply conj; vm_compute; reflexivity. Qed.

(** ** The cell of an instance *)

Lemma side_small (N : Z) : 0 < N -> N * N <= 2 ^ 24 -> N <= 4096.
Proof. intros HN Hfits. nia. Qed.

Lemma gridF_exact (N : Z) :
  0 < N -> N * N <= 2 ^ 24 ->
  CellShader.gridF (Vec2 N N) = (inject_Z N, inject_Z N).
Proof.
  intros HN Hfits. pose proof (side_small N HN Hfits).
  unfold CellShader.gridF. cbn [vx vy]. now rewrite f32_integer by lia.
Qed.

(** On grids of up to 2^24 cells the float arithmetic of [vertexMain]
    finds the column and the row of every instance exactly. *)
Lemma cellOf_exact (N i : Z) :
  0 < N -> N * N <= 2 ^ 24 -> 0 <= i < N * N ->
  CellShader.cellOf (Vec2 N N) i = (inject_Z (i mod N), inject_Z (i / N)).
Proof.
  intros HN Hfits Hi. unfold CellShader.cellOf.
  rewrite gridF_exact by assumption. cbn [fst].
  rewrite f32_integer by lia.
  now destruct (fmod_exact N i HN Hfits Hi) as [-> ->].
Qed.

Lemma cellOf_inside (N x y : Z) :
  0 < N -> N * N <= 2 ^ 24 -> 0 <= x < N -> 0 <= y < N ->
  CellShader.cellOf (Vec2 N N) (y * N + x) = (inject_Z x, inject_Z y).
Proof.
  intros HN Hfits Hx Hy. rewrite cellOf_exact by (try assumption; nia).
  f_equal; f_equal.
  - rewrite Z.add_comm, Z.mod_add by lia. apply Z.mod_small; lia.
  - rewrite Z.add_comm, Z.div_add by lia. rewrite Z.div_small by lia. lia.
Qed.

(** The cell shader's [cellIndex] on a cell of the grid: no rounding. *)
Lemma cellShader_cellIndex (N x y : Z) :
  0 < N -> N * N <= 2 ^ 24 -> 0 <= x < N -> 0 <= y < N ->
  CellShader.cellIndex (Vec2 N N) (inject_Z x, inject_Z y) = y * N + x.
Proof.
  intros HN Hfits Hx Hy. unfold CellShader.cellIndex.
  rewrite gridF_exact by assumption. cbn [fst snd].
  destruct (fmod_exact N x HN Hfits ltac:(nia)) as [-> _].
  destruct (fmod_exact N y HN Hfits ltac:(nia)) as [-> _].
  rewrite !Z.mod_small by lia.
  unfold fmul, fadd.
  rewrite (f32_comp (inject_Z y * inject_Z N) (inject_Z (y * N)))
    by (now rewrite inject_Z_mult).
  rewrite f32_integer by nia.
  rewrite (f32_comp (inject_Z (y * N) + inject_Z x) (inject_Z (y * N + x)))
    by (now rewrite inject_Z_plus).
  rewrite f32_integer by nia.
  unfold toU32. rewrite Qfloor_Z. nia.
Qed.

(** ** The rounding of [gridPos] *)

Lemma tiny_bounds : (0 < tiny /\ tiny <= u24)%Q.
Proof. split; vm_compute; [reflexivity | discriminate]. Qed.

(** Rounding a number of magnitude at most 2 moves it by at most one unit
    in the last place of 1 (and half the subnormal spacing). *)
Lemma f32_near (q : Q) :
  (- (2) <= q)%Q -> (q <= 2)%Q ->
  (q - (u24 * 2 + tiny) <= f32 q /\ f32 q <= q + (u24 * 2 + tiny))%Q.
Proof.
  intros Hlo Hhi. apply f32_error. apply Qabs_Qle_condition. split; assumption.
Qed.

Lemma N_nonzero (N : Z) : 0 < N -> ~ (inject_Z N == 0)%Q.
Proof.
  intros HN H0. assert (N = 0) by (apply inject_Z_injective; exact H0). lia.
Qed.

Lemma N_positive (N : Z) : 0 < N -> (0 < inject_Z N)%Q.
Proof. intros HN. change 0%Q with (inject_Z 0). rewrite <- Zlt_Qlt. lia. Qed.

(** The reciprocal of the side of the grid and the fraction c / N. *)
Lemma side_fractions (N c : Z) :
  0 < N -> N <= 4096 -> 0 <= c < N ->
  ((1 # 4096) <= / inject_Z N /\ / inject_Z N <= 1
   /\ 0 <= inject_Z c * / inject_Z N
   /\ inject_Z c * / inject_Z N + / inject_Z N <= 1)%Q.
Proof.
  intros HN Hside Hc.
  pose proof (N_positive N HN) as Hu.
  assert (Hv : (0 < / inject_Z N)%Q) by now apply Qinv_lt_0_compat.
  assert (Huv : (inject_Z N * / inject_Z N == 1)%Q)
    by (apply Qmult_inv_r; now apply N_nonzero).
  assert (H1 : (1 <= inject_Z N)%Q)
    by (change 1%Q with (inject_Z 1); rewrite <- Zle_Qle; lia).
  assert (H2 : (inject_Z N <= 4096)%Q)
    by (change 4096%Q with (inject_Z 4096); rewrite <- Zle_Qle; lia).
  assert (H3 : (0 <= inject_Z c)%Q)
    by (change 0%Q with (inject_Z 0); rewrite <- Zle_Qle; lia).
  assert (H4 : (inject_Z c + 1 <= inject_Z N)%Q).
  { change 1%Q with (inject_Z 1). rewrite <- inject_Z_plus, <- Zle_Qle. lia. }
  set (u := inject_Z N) in *. set (v := (/ u)%Q) in *. set (C := inject_Z c) in *.
  repeat split; nra.
Qed.

(** One coordinate of [gridPos], for a vertex whose [pos + 1] is [t]: four
    roundings of numbers within [-2, 2]. *)
Lemma axis_error (N c : Z) (t : Q) :
  0 < N -> N * N <= 2 ^ 24 -> 0 <= c < N -> (0 <= t)%Q -> (t <= 2)%Q ->
  (Qabs (fadd (fsub (fdiv t (inject_Z N)) 1)
           (fdiv (fmul (inject_Z c) 2) (inject_Z N))
         - ((2 * inject_Z c + t) / inject_Z N - 1))
   <= 4 * (u24 * 2 + tiny))%Q.
Proof.
  intros HN Hfits Hc Ht0 Ht2.
  pose proof (side_small N HN Hfits) as Hside.
  destruct (side_fractions N c HN Hside Hc) as (Hv0 & Hv1 & Hw0 & Hw1).
  destruct tiny_bounds as [Htiny0 Htiny1].
  assert (Hu24 : (u24 == 1 # 16777216)%Q) by reflexivity.
  unfold fmul.
  rewrite (f32_comp (inject_Z c * 2) (inject_Z (c * 2)))
    by (rewrite inject_Z_mult; reflexivity).
  rewrite f32_integer by lia.
  rewrite inject_Z_mult. change (inject_Z 2) with 2%Q.
  unfold fadd, fsub, fdiv, Qdiv.
  set (v := (/ inject_Z N)%Q) in *. set (w := (inject_Z c * v)%Q) in *.
  assert (Htv : (0 <= t * v /\ t * v <= 2 * v)%Q) by (split; nra).
  set (tv := (t * v)%Q) in *. destruct Htv as [Htv0 Htv2].
  set (e := (u24 * 2 + tiny)%Q) in *.
  assert (He : (0 < e /\ e <= 1 # 1048576)%Q) by (unfold e; split; lra).
  destruct He as [He0 He1].
  destruct (f32_near tv ltac:(lra) ltac:(lra)) as [A1 A2]. fold e in A1, A2.
  set (t2 := f32 tv) in *.
  destruct (f32_near (t2 - 1) ltac:(lra) ltac:(lra)) as [B1 B2]. fold e in B1, B2.
  set (t3 := f32 (t2 - 1)) in *.
  assert (Ho : (inject_Z c * 2 * v == 2 * w)%Q) by (unfold w; ring).
  destruct (f32_near (inject_Z c * 2 * v) ltac:(lra) ltac:(lra)) as [C1 C2].
  fold e in C1, C2.
  set (o2 := f32 (inject_Z c * 2 * v)) in *.
  destruct (f32_near (t3 + o2) ltac:(lra) ltac:(lra)) as [D1 D2]. fold e in D1, D2.
  set (g := f32 (t3 + o2)) in *.
  assert (Hideal : ((2 * inject_Z c + t) * v - 1 == 2 * w + tv - 1)%Q)
    by (unfold w, tv; ring).
  apply Qabs_Qle_condition. split; lra.
Qed.

(** The two values of [pos + 1] on the vertices of the template. *)
Lemma template_shifted :
  fadd (f32 (- lit_0_7)) 1 = (5033165 # 16777216)%Q
  /\ fadd (f32 lit_0_7) 1 = (7130317 # 4194304)%Q.
Proof. split; vm_compute; reflexivity. Qed.

(** ** The footprint of a cell *)

Lemma inTriangle_iff (a b c p : Q * Q) :
  inTriangle a b c p = true
  <-> (0 <= edge a b p /\ 0 <= edge b c p /\ 0 <= edge c a p)%Q
      \/ (edge a b p <= 0 /\ edge b c p <= 0 /\ edge c a p <= 0)%Q.
Proof.
  unfold inTriangle.
  rewrite orb_true_iff, !andb_true_iff, !Qle_bool_iff. tauto.
Qed.

(** The two triangles drawn on the corners of an axis-parallel rectangle
    cover the rectangle, and nothing else. *)
Lemma rectangle_covers (a b c d : Q) (p : Q * Q) :
  (a < b)%Q -> (c < d)%Q ->
  covers [ (a, c); (b, c); (b, d); (a, c); (b, d); (a, d) ] p = true
  <-> (a <= fst p /\ fst p <= b /\ c <= snd p /\ snd p <= d)%Q.
Proof.
  intros Hab Hcd. unfold covers. rewrite !orb_true_iff, !inTriangle_iff.
  unfold edge. cbn [fst snd]. destruct p as [s t]. cbn [fst snd].
  assert (Hw : (0 < b - a)%Q) by lra. assert (Hh : (0 < d - c)%Q) by lra.
  set (w := (b - a)%Q) in *. set (h := (d - c)%Q) in *.
  assert (Eb : (b == a + w)%Q) by (unfold w; ring).
  assert (Ed : (d == c + h)%Q) by (unfold h; ring).
  set (X := (s - a)%Q). set (Y := (t - c)%Q).
  assert (Es : (s == a + X)%Q) by (unfold X; ring).
  assert (Et : (t == c + Y)%Q) by (unfold Y; ring).
  assert (E1 : ((b - a) * (t - c) - (c - c) * (s - a) == w * Y)%Q)
    by (unfold w, Y; ring).
  assert (E2 : ((b - b) * (t - c) - (d - c) * (s - b) == h * (w - X))%Q)
    by (unfold w, h, X; ring).
  assert (E3 : ((a - b) * (t - d) - (c - d) * (s - b) == w * (h - Y) - h * (w - X))%Q)
    by (unfold w, h, X, Y; ring).
  assert (E4 : ((b - a) * (t - c) - (d - c) * (s - a) == w * Y - h * X)%Q)
    by (unfold w, h, X, Y; ring).
  assert (E5 : ((a - b) * (t - d) - (d - d) * (s - b) == w * (h - Y))%Q)
    by (unfold w, h, Y; ring).
  assert (E6 : ((a - a) * (t - d) - (c - d) * (s - a) == h * X)%Q)
    by (unfold h, X; ring).
  fold w h. rewrite ?E1, ?E2, ?E3, ?E4, ?E5, ?E6.
  split.
  - intros [H | [H | H]]; [| | discriminate H].
    + destruct H as [(H1 & H2 & H3) | (H1 & H2 & H3)].
      * assert (0 <= Y)%Q by nra. assert (X <= w)%Q by nra.
        assert (Y <= h)%Q by nra. assert (0 <= X)%Q by nra. lra.
      * exfalso. assert (Y <= 0)%Q by nra. assert (w <= X)%Q by nra. nra.
    + destruct H as [(H1 & H2 & H3) | (H1 & H2 & H3)].
      * assert (Y <= h)%Q by nra. assert (0 <= X)%Q by nra.
        assert (0 <= Y)%Q by nra. assert (X <= w)%Q by nra. lra.
      * exfalso. assert (h <= Y)%Q by nra. assert (X <= 0)%Q by nra. nra.
  - intros (H1 & H2 & H3 & H4).
    assert (0 <= X)%Q by lra. assert (X <= w)%Q by lra.
    assert (0 <= Y)%Q by lra. assert (Y <= h)%Q by lra.
    destruct (Qlt_le_dec (w * Y) (h * X)) as [Hd | Hd].
    + left. left. repeat split; nra.
    + right. left. left. repeat split; nra.
Qed.

(** The quad of a cell has its corners on the values [gridPos] takes on
    the cell's column and on its row. *)
Lemma cellQuad_corners (N x y : Z) :
  0 < N -> N * N <= 2 ^ 24 -> 0 <= x < N -> 0 <= y < N ->
  cellQuad (Vec2 N N) (y * N + x)
  = [ (quadLo N x, quadLo N y); (quadHi N x, quadLo N y);
      (quadHi N x, quadHi N y);
      (quadLo N x, quadLo N y); (quadHi N x, quadHi N y);
      (quadLo N x, quadHi N y) ].
Proof.
  intros HN Hfits Hx Hy.
  pose proof (cellOf_inside N x y HN Hfits Hx Hy) as Hxy.
  pose proof (cellOf_inside N x 0 HN Hfits Hx ltac:(lia)) as Hx0.
  pose proof (cellOf_inside N y 0 HN Hfits Hy ltac:(lia)) as Hy0.
  replace (0 * N + x) with x in Hx0 by lia.
  replace (0 * N + y) with y in Hy0 by lia.
  unfold cellQuad, quadLo, quadHi, vertices, CellShader.gridPos.
  cbn [map CellShader.instance CellShader.pos fst snd].
  rewrite Hxy, Hx0, Hy0, gridF_exact by assumption. reflexivity.
Qed.

(** The corners are where exact arithmetic would put them, up to the
    rounding of the template and of [gridPos]. *)
Lemma quad_corners (N c : Z) :
  0 < N -> N * N <= 2 ^ 24 -> 0 <= c < N ->
  (Qabs (quadLo N c - ((2 * inject_Z c + (3 # 10)) / inject_Z N - 1)) <= quadSlack
   /\ Qabs (quadHi N c - ((2 * inject_Z c + (17 # 10)) / inject_Z N - 1))
      <= quadSlack)%Q.
Proof.
  intros HN Hfits Hc.
  pose proof (side_small N HN Hfits) as Hside.
  destruct (side_fractions N c HN Hside Hc) as (Hv0 & Hv1 & Hw0 & Hw1).
  destruct tiny_bounds as [Htiny0 Htiny1].
  assert (Hu24 : (u24 == 1 # 16777216)%Q) by reflexivity.
  assert (Hslack : (quadSlack == 1 # 1048576)%Q) by reflexivity.
  pose proof (cellOf_inside N c 0 HN Hfits Hc ltac:(lia)) as Hc0.
  replace (0 * N + c) with c in Hc0 by lia.
  destruct template_shifted as [Elo Ehi].
  unfold quadLo, quadHi, CellShader.gridPos.
  cbn [CellShader.instance CellShader.pos fst snd].
  rewrite Hc0, gridF_exact by assumption. cbn [fst snd].
  rewrite Elo, Ehi.
  pose proof (axis_error N c (5033165 # 16777216) HN Hfits Hc
                ltac:(lra) ltac:(lra)) as Alo.
  pose proof (axis_error N c (7130317 # 4194304) HN Hfits Hc
                ltac:(lra) ltac:(lra)) as Ahi.
  apply Qabs_Qle_condition in Alo. apply Qabs_Qle_condition in Ahi.
  set (glo := fadd _ _) in *. set (ghi := fadd _ _) in *.
  unfold Qdiv in *. set (v := (/ inject_Z N)%Q) in *.
  set (w := (inject_Z c * v)%Q) in *.
  assert (E1 : ((2 * inject_Z c + (5033165 # 16777216)) * v - 1
                == 2 * w + (5033165 # 16777216) * v - 1)%Q) by (unfold w; ring).
  assert (E2 : ((2 * inject_Z c + (7130317 # 4194304)) * v - 1
                == 2 * w + (7130317 # 4194304) * v - 1)%Q) by (unfold w; ring).
  assert (E3 : ((2 * inject_Z c + (3 # 10)) * v - 1
                == 2 * w + (3 # 10) * v - 1)%Q) by (unfold w; ring).
  assert (E4 : ((2 * inject_Z c + (17 # 10)) * v - 1
                == 2 * w + (17 # 10) * v - 1)%Q) by (unfold w; ring).
  rewrite E1 in Alo. rewrite E2 in Ahi. rewrite E3, E4.
  split; apply Qabs_Qle_condition; split; lra.
Qed.

(** The quad of a cell is a proper rectangle strictly inside the cell's
    slot of the tiling. *)
Lemma quad_in_slot (N c : Z) :
  0 < N -> N * N <= 2 ^ 24 -> 0 <= c < N ->
  (2 * inject_Z c / inject_Z N - 1 < quadLo N c
   /\ quadLo N c < quadHi N c
   /\ quadHi N c < 2 * (inject_Z c + 1) / inject_Z N - 1)%Q.
Proof.
  intros HN Hfits Hc.
  pose proof (side_small N HN Hfits) as Hside.
  destruct (side_fractions N c HN Hside Hc) as (Hv0 & Hv1 & Hw0 & Hw1).
  assert (Hslack : (quadSlack == 1 # 1048576)%Q) by reflexivity.
  destruct (quad_corners N c HN Hfits Hc) as [Hlo Hhi].
  apply Qabs_Qle_condition in Hlo. apply Qabs_Qle_condition in Hhi.
  unfold Qdiv in *. set (v := (/ inject_Z N)%Q) in *.
  set (w := (inject_Z c * v)%Q) in *.
  assert (E3 : ((2 * inject_Z c + (3 # 10)) * v - 1
                == 2 * w + (3 # 10) * v - 1)%Q) by (unfold w; ring).
  assert (E4 : ((2 * inject_Z c + (17 # 10)) * v - 1
                == 2 * w + (17 # 10) * v - 1)%Q) by (unfold w; ring).
  assert (E5 : (2 * inject_Z c * v - 1 == 2 * w - 1)%Q) by (unfold w; ring).
  assert (E6 : (2 * (inject_Z c + 1) * v - 1 == 2 * w + 2 * v - 1)%Q)
    by (unfold w; ring).
  rewrite E3 in Hlo. rewrite E4 in Hhi. rewrite E5, E6.
  repeat split; lra.
Qed.

(** The quad of a cell covers the rectangle between its corners. *)
Lemma quad_rectangle (N x y : Z) (q : Q * Q) :
  0 < N -> N * N <= 2 ^ 24 -> 0 <= x < N -> 0 <= y < N ->
  covers (cellQuad (Vec2 N N) (y * N + x)) q = true
  <-> (quadLo N x <= fst q /\ fst q <= quadHi N x
       /\ quadLo N y <= snd q /\ snd q <= quadHi N y)%Q.
Proof.
  intros HN Hfits Hx Hy. rewrite cellQuad_corners by assumption.
  destruct (quad_in_slot N x HN Hfits Hx) as (_ & Hwide & _).
  destruct (quad_in_slot N y HN Hfits Hy) as (_ & Hhigh & _).
  exact (rectangle_covers _ _ _ _ q Hwide Hhigh).
Qed.

(** Cells further along an axis have their slots further along it. *)
Lemma slots_ordered (N c c' : Z) :
  0 < N -> c + 1 <= c' ->
  (2 * (inject_Z c + 1) / inject_Z N - 1 <= 2 * inject_Z c' / inject_Z N - 1)%Q.
Proof.
  intros HN Hc.
  pose proof (N_positive N HN) as Hu.
  assert (Hv : (0 < / inject_Z N)%Q) by now apply Qinv_lt_0_compat.
  assert (H1 : (inject_Z c + 1 <= inject_Z c')%Q).
  { change 1%Q with (inject_Z 1). rewrite <- inject_Z_plus, <- Zle_Qle. lia. }
  unfold Qdiv. set (v := (/ inject_Z N)%Q) in *. nra.
Qed.

(** Two quads that share a point on one axis are in the same column (or
    row). *)
Lemma quad_axis (N c c' : Z) (t : Q) :
  0 < N -> N * N <= 2 ^ 24 -> 0 <= c < N -> 0 <= c' < N ->
  (quadLo N c <= t)%Q -> (t <= quadHi N c')%Q -> c <= c'.
Proof.
  intros HN Hfits Hc Hc' Hlo Hhi.
  destruct (Z_le_gt_dec c c') as [Hle | Hgt]; [exact Hle | exfalso].
  destruct (quad_in_slot N c HN Hfits Hc) as (S1 & _ & _).
  destruct (quad_in_slot N c' HN Hfits Hc') as (_ & _ & S2).
  pose proof (slots_ordered N c' c HN ltac:(lia)). lra.
Qed.

Lemma quad_visible_axis (N c : Z) (t : Q) :
  0 < N -> N * N <= 2 ^ 24 -> 0 <= c < N ->
  (quadLo N c <= t)%Q -> (t <= quadHi N c)%Q -> (-(1) < t /\ t < 1)%Q.
Proof.
  intros HN Hfits Hc Hlo Hhi.
  pose proof (side_small N HN Hfits) as Hside.
  destruct (side_fractions N c HN Hside Hc) as (Hv0 & Hv1 & Hw0 & Hw1).
  destruct (quad_in_slot N c HN Hfits Hc) as (S1 & _ & S2).
  unfold Qdiv in *. set (v := (/ inject_Z N)%Q) in *.
  set (w := (inject_Z c * v)%Q) in *.
  assert (E5 : (2 * inject_Z c * v - 1 == 2 * w - 1)%Q) by (unfold w; ring).
  assert (E6 : (2 * (inject_Z c + 1) * v - 1 == 2 * w + 2 * v - 1)%Q)
    by (unfold w; ring).
  rewrite E5 in S1. rewrite E6 in S2. split; lra.
Qed.

(** The template itself: a square of half-side binary32(0.7). *)
Lemma template_square (p : Q * Q) :
  covers vertices p = true
  <-> ((-11744051 # 16777216) <= fst p /\ fst p <= 11744051 # 16777216
       /\ (-11744051 # 16777216) <= snd p /\ snd p <= 11744051 # 16777216)%Q.
Proof.
  assert (Hv : vertices
               = [ ((-11744051 # 16777216)%Q, (-11744051 # 16777216)%Q);
                   ((11744051 # 16777216)%Q, (-11744051 # 16777216)%Q);
                   ((11744051 # 16777216)%Q, (11744051 # 16777216)%Q);
                   ((-11744051 # 16777216)%Q, (-11744051 # 16777216)%Q);
                   ((11744051 # 16777216)%Q, (11744051 # 16777216)%Q);
                   ((-11744051 # 16777216)%Q, (11744051 # 16777216)%Q) ])
    by (vm_compute; reflexivity).
  rewrite Hv. apply rectangle_covers; reflexivity.
Qed.

(** C9, as the code has it.  The vertex template is the square of
    half-side binary32(0.7) = 11744051 / 2^24 split into two triangles.  On
    a grid of up to 2^24 cells the quad of cell (x, y), 0 <= x, y < N,
    covers exactly the rectangle between the corners [gridPos] computes in
    binary32; these are within 2^-20 of (2x+0.3)/N - 1, (2x+1.7)/N - 1 and
    of (2y+0.3)/N - 1, (2y+1.7)/N - 1, and strictly inside the cell's slot
    [2x/N - 1, 2(x+1)/N - 1] x [2y/N - 1, 2(y+1)/N - 1] of the tiling of
    [-1,1]².  So the quad contains the rectangle
    [(2x+0.3)/N - 1, (2x+1.7)/N - 1] x [(2y+0.3)/N - 1, (2y+1.7)/N - 1]
    shrunk by 2^-20, is contained in that rectangle grown by 2^-20, and
    lies inside the slot: it is the slot less a margin of about 0.3/N on
    every side.  The slots themselves run from -1 to 1. *)
Theorem C9_quad_covers_footprint (N x y : Z) (q : Q * Q) :
  0 < N -> N * N <= 2 ^ 24 -> 0 <= x < N -> 0 <= y < N ->
  (covers (cellQuad (Vec2 N N) (y * N + x)) q = true
   <-> (quadLo N x <= fst q /\ fst q <= quadHi N x
        /\ quadLo N y <= snd q /\ snd q <= quadHi N y)%Q)
  /\ (Qabs (quadLo N x - ((2 * inject_Z x + (3 # 10)) / inject_Z N - 1)) <= quadSlack
      /\ Qabs (quadHi N x - ((2 * inject_Z x + (17 # 10)) / inject_Z N - 1))
         <= quadSlack
      /\ Qabs (quadLo N y - ((2 * inject_Z y + (3 # 10)) / inject_Z N - 1))
         <= quadSlack
      /\ Qabs (quadHi N y - ((2 * inject_Z y + (17 # 10)) / inject_Z N - 1))
         <= quadSlack)%Q
  /\ (2 * inject_Z x / inject_Z N - 1 < quadLo N x
      /\ quadHi N x < 2 * (inject_Z x + 1) / inject_Z N - 1
      /\ 2 * inject_Z y / inject_Z N - 1 < quadLo N y
      /\ quadHi N y < 2 * (inject_Z y + 1) / inject_Z N - 1)%Q
  /\ (footprint (- quadSlack) N x y q ->
      covers (cellQuad (Vec2 N N) (y * N + x)) q = true)
  /\ (covers (cellQuad (Vec2 N N) (y * N + x)) q = true ->
      footprint quadSlack N x y q)
  /\ (covers (cellQuad (Vec2 N N) (y * N + x)) q = true -> slot N x y q)
  /\ (covers vertices q = true
      <-> ((-11744051 # 16777216) <= fst q /\ fst q <= 11744051 # 16777216
           /\ (-11744051 # 16777216) <= snd q /\ snd q <= 11744051 # 16777216)%Q)
  /\ (2 * inject_Z 0 / inject_Z N - 1 == -(1)
      /\ 2 * (inject_Z (N - 1) + 1) / inject_Z N - 1 == 1)%Q.
Proof.
  intros HN Hfits Hx Hy.
  destruct (quad_corners N x HN Hfits Hx) as [Cx1 Cx2].
  destruct (quad_corners N y HN Hfits Hy) as [Cy1 Cy2].
  destruct (quad_in_slot N x HN Hfits Hx) as (Sx1 & _ & Sx2).
  destruct (quad_in_slot N y HN Hfits Hy) as (Sy1 & _ & Sy2).
  split; [now apply quad_rectangle |].
  split; [tauto |]. split; [tauto |].
  split; [| split; [| split; [| split]]].
  - intros (H1 & H2 & H3 & H4). apply quad_rectangle; try assumption.
    apply Qabs_Qle_condition in Cx1, Cx2, Cy1, Cy2. repeat split; lra.
  - intros Hq. apply quad_rectangle in Hq; try assumption.
    destruct Hq as (H1 & H2 & H3 & H4).
    apply Qabs_Qle_condition in Cx1, Cx2, Cy1, Cy2.
    unfold footprint. repeat split; lra.
  - intros Hq. apply quad_rectangle in Hq; try assumption.
    destruct Hq as (H1 & H2 & H3 & H4). unfold slot. repeat split; lra.
  - apply template_square.
  - assert (Hne : ~ (inject_Z N == 0)%Q) by now apply N_nonzero.
    unfold Z.sub. rewrite inject_Z_plus, inject_Z_opp.
    change (inject_Z 1) with 1%Q. change (inject_Z 0) with 0%Q.
    split; field; exact Hne.
Qed.

Lemma C9_quad_covers_footprint_witness :
  (covers (cellQuad (Vec2 Const.GRID_SIZE Const.GRID_SIZE)
             (0 * Const.GRID_SIZE + 0)) ((-511 # 512)%Q, (-511 # 512)%Q) = true
   <-> (quadLo Const.GRID_SIZE 0 <= fst ((-511 # 512)%Q, (-511 # 512)%Q)
        /\ fst ((-511 # 512)%Q, (-511 # 512)%Q) <= quadHi Const.GRID_SIZE 0
        /\ quadLo Const.GRID_SIZE 0 <= snd ((-511 # 512)%Q, (-511 # 512)%Q)
        /\ snd ((-511 # 512)%Q, (-511 # 512)%Q) <= quadHi Const.GRID_SIZE 0)%Q)
  /\ (Qabs (quadLo Const.GRID_SIZE 0
            - ((2 * inject_Z 0 + (3 # 10)) / inject_Z Const.GRID_SIZE - 1))
      <= quadSlack
      /\ Qabs (quadHi Const.GRID_SIZE 0
               - ((2 * inject_Z 0 + (17 # 10)) / inject_Z Const.GRID_SIZE - 1))
         <= quadSlack
      /\ Qabs (quadLo Const.GRID_SIZE 0
               - ((2 * inject_Z 0 + (3 # 10)) / inject_Z Const.GRID_SIZE - 1))
         <= quadSlack
      /\ Qabs (quadHi Const.GRID_SIZE 0
               - ((2 * inject_Z 0 + (17 # 10)) / inject_Z Const.GRID_SIZE - 1))
         <= quadSlack)%Q
  /\ (2 * inject_Z 0 / inject_Z Const.GRID_SIZE - 1 < quadLo Const.GRID_SIZE 0
      /\ quadHi Const.GRID_SIZE 0
         < 2 * (inject_Z 0 + 1) / inject_Z Const.GRID_SIZE - 1
      /\ 2 * inject_Z 0 / inject_Z Const.GRID_SIZE - 1 < quadLo Const.GRID_SIZE 0
      /\ quadHi Const.GRID_SIZE 0
         < 2 * (inject_Z 0 + 1) / inject_Z Const.GRID_SIZE - 1)%Q
  /\ (footprint (- quadSlack) Const.GRID_SIZE 0 0 ((-511 # 512)%Q, (-511 # 512)%Q) ->
      covers (cellQuad (Vec2 Const.GRID_SIZE Const.GRID_SIZE)
                (0 * Const.GRID_SIZE + 0)) ((-511 # 512)%Q, (-511 # 512)%Q) = true)
  /\ (covers (cellQuad (Vec2 Const.GRID_SIZE Const.GRID_SIZE)
                (0 * Const.GRID_SIZE + 0)) ((-511 # 512)%Q, (-511 # 512)%Q) = true ->
      footprint quadSlack Const.GRID_SIZE 0 0 ((-511 # 512)%Q, (-511 # 512)%Q))
  /\ (covers (cellQuad (Vec2 Const.GRID_SIZE Const.GRID_SIZE)
                (0 * Const.GRID_SIZE + 0)) ((-511 # 512)%Q, (-511 # 512)%Q) = true
      -> slot Const.GRID_SIZE 0 0 ((-511 # 512)%Q, (-511 # 512)%Q))
  /\ (covers vertices ((-511 # 512)%Q, (-511 # 512)%Q) = true
      <-> ((-11744051 # 16777216) <= fst ((-511 # 512)%Q, (-511 # 512)%Q)
           /\ fst ((-511 # 512)%Q, (-511 # 512)%Q) <= 11744051 # 16777216
           /\ (-11744051 # 16777216) <= snd ((-511 # 512)%Q, (-511 # 512)%Q)
           /\ snd ((-511 # 512)%Q, (-511 # 512)%Q) <= 11744051 # 16777216)%Q)
  /\ (2 * inject_Z 0 / inject_Z Const.GRID_SIZE - 1 == -(1)
      /\ 2 * (inject_Z (Const.GRID_SIZE - 1) + 1) / inject_Z Const.GRID_SIZE - 1
         == 1)%Q.
Proof.
  apply (C9_quad_covers_footprint Const.GRID_SIZE 0 0 ((-511 # 512)%Q, (-511 # 512)%Q));
    unfold Const.GRID_SIZE; lia.
Defined.

(** C9 as the specification states it does not hold: the corner (-1, -1) of
    the slot of cell (0, 0) of the 512 x 512 grid is not covered by the
    cell's quad, so the quads do not tile the visible area. *)
Lemma C9_quad_does_not_fill_slot :
  ~ (forall q : Q * Q,
       covers (cellQuad (Vec2 Const.GRID_SIZE Const.GRID_SIZE)
                 (0 * Const.GRID_SIZE + 0)) q = true
       <-> slot Const.GRID_SIZE 0 0 q).
Proof.
  intros H. specialize (H (-(1), -(1))%Q).
  assert (Hslot : slot Const.GRID_SIZE 0 0 (-(1), -(1))%Q)
    by (unfold slot; cbn; repeat split; vm_compute; discriminate).
  apply H in Hslot. vm_compute in Hslot. discriminate Hslot.
Qed.

(** The quad of cell (0, 0) of the 512 x 512 grid, as binary32 has it:
    from -8383693 / 2^23 to -8360755 / 2^23 on both axes, around the centre
    of the cell's slot. *)
Remark first_quad :
  quadLo Const.GRID_SIZE 0 = (-8383693 # 8388608)%Q
  /\ quadHi Const.GRID_SIZE 0 = (-8360755 # 8388608)%Q
  /\ covers (cellQuad (Vec2 Const.GRID_SIZE Const.GRID_SIZE) 0)
       ((-511 # 512)%Q, (-511 # 512)%Q) = true.
Proof. repeat split; vm_compute; reflexivity. Qed.

(** ** The vertex stage *)








(** Nor are all live cells drawn at the same size: the same vertex under
    the red 255 and under the grey 85 | 85<<8 | 85<<16. *)
Remark live_states_place_differently :
  ~ (fst (ndc (CellShader.outPos
                 (CellShader.vertexMain (Vec2 512 512) [255%Z] firstVertex)))
     == fst (ndc (CellShader.outPos
                    (CellShader.vertexMain (Vec2 512 512) [5592405%Z] firstVertex))))%Q.
Proof. vm_compute. discriminate. Qed.

(** ** The invariant along a run *)

Lemma seedCell_packed (r : Q) : packed (seedCell r).
Proof.
  rewrite seedCell_cases. unfold packed.
  destruct (Qlt_bool r lit_0_04); [lia |].
  destruct (Qlt_bool r lit_0_08); [lia |].
  destruct (Qlt_bool r lit_0_12); lia.
Qed.

Lemma both_parities (P : list Z -> Prop) (s : storage) (k : Z) :
  P (getBuf s (k mod 2)) /\ P (getBuf s ((k + 1) mod 2))
  <-> P (getBuf s 0) /\ P (getBuf s 1).
Proof.
  rewrite (Z.add_mod k 1 2) by lia.
  assert (H : k mod 2 = 0 \/ k mod 2 = 1)
    by (pose proof (Z.mod_pos_bound k 2 ltac:(lia)); lia).
  destruct H as [-> | ->]; cbn; tauto.
Qed.

(** From the seeded device on, after any number of ticks, both buffers
    have N*N cells and every cell has its top byte zero. *)
Lemma run_packed (N W : Z) (random : nat -> Q) (k : nat) :
  0 < W -> N mod W = 0 -> 0 < N -> N * N <= 2 ^ 32 ->
  sized N (device (ticks N W k (initialWorld N random)))
  /\ Forall packed (getBuf (device (ticks N W k (initialWorld N random))) 0)
  /\ Forall packed (getBuf (device (ticks N W k (initialWorld N random))) 1).
Proof.
  intros HW Hdiv HN Hfits. induction k as [| k (Hsized & HA & HB)].
  - change (device (ticks N W 0 (initialWorld N random)))
      with (initialStorage N random).
    unfold initialStorage, sized.
    change (getBuf (setBuf ?s 0 ?b) 0) with b.
    change (getBuf (setBuf ?s 0 ?b) 1) with (bufB s).
    change (bufA (setBuf ?s 0 ?b)) with b.
    change (bufB (setBuf ?s 0 ?b)) with (bufB s). cbn [bufB].
    split; [split |].
    + apply cellStateArray_length.
    + apply length_replicate.
    + split.
      * apply Forall_lookup. intros i v Hv.
        assert (Hi : (i < Z.to_nat (N * N))%nat)
          by (rewrite <- (cellStateArray_length N random);
              eapply lookup_lt_Some, Hv).
        rewrite cellStateArray_lookup in Hv by exact Hi.
        injection Hv as <-. apply seedCell_packed.
      * apply Forall_replicate. unfold packed. lia.
  - change (ticks N W (S k) (initialWorld N random))
      with (updateGrid N W (ticks N W k (initialWorld N random))).
    set (w := ticks N W k (initialWorld N random)) in *.
    split; [now apply updateGrid_sized |].
    apply (both_parities (Forall packed) _ (step w)).
    pose proof (proj2 (both_parities (Forall packed) (device w) (step w))
                  (conj HA HB)) as [Hread Hwrite].
    split.
    + now rewrite updateGrid_read_unchanged.
    + now apply written_packed.
Qed.

(** * Further properties of the shaders and the driver *)

(** ** Counting *)

(** X1. [countNonZero] returns the number of non-zero elements of the
    array, between 0 and 8, whatever their order: 0 exactly when all are
    zero and 8 exactly when none is. *)
Theorem X1_countNonZero_counts (colors colors' : list Z) :
  length colors = 8%nat -> colors ≡ₚ colors' ->
  SimulationShader.countNonZero colors
  = Z.of_nat (length (filter (fun c => c <> 0) colors))
  /\ 0 <= SimulationShader.countNonZero colors <= 8
  /\ SimulationShader.countNonZero colors' = SimulationShader.countNonZero colors
  /\ (SimulationShader.countNonZero colors = 0 <-> Forall (fun c => c = 0) colors)
  /\ (SimulationShader.countNonZero colors = 8 <-> Forall (fun c => c <> 0) colors).
Proof.
  intros Hlen Hperm.
  assert (Hlen' : length colors' = 8%nat) by now rewrite <- Hperm.
  rewrite !countNonZero_spec by assumption.
  pose proof (length_filter (fun c => c <> 0) colors) as Hle.
  split; [reflexivity |]. split; [lia |]. split; [now rewrite Hperm |].
  assert (Hsplit : forall l : list Z,
             (length (filter (fun c => c <> 0) l) = 0%nat <-> Forall (fun c => c = 0) l)
             /\ (length (filter (fun c => c <> 0) l) = length l
                 <-> Forall (fun c => c <> 0) l)).
  { induction l as [| c l [IH0 IHn]]; [cbn; split; split; auto |].
    pose proof (length_filter (fun c => c <> 0) l) as Hl.
    rewrite filter_cons. destruct (decide (c <> 0)) as [Hc | Hc]; cbn [length].
    - split; split.
      + discriminate.
      + intros HF. apply Forall_cons in HF. tauto.
      + intros Heq. apply Forall_cons. split; [exact Hc | apply IHn; lia].
      + intros HF. apply Forall_cons in HF. f_equal. now apply IHn.
    - split; split.
      + intros Heq. apply Forall_cons. split; [lia | now apply IH0].
      + intros HF. apply Forall_cons in HF. now apply IH0.
      + lia.
      + intros HF. apply Forall_cons in HF. tauto. }
  destruct (Hsplit colors) as [H0 H8]. rewrite Hlen in H8.
  split.
  - rewrite <- H0. lia.
  - rewrite <- H8. lia.
Qed.

Lemma X1_countNonZero_counts_witness :
  SimulationShader.countNonZero [255; 0; 0; 65280; 0; 0; 16711680; 0]
  = Z.of_nat (length (filter (fun c => c <> 0) [255; 0; 0; 65280; 0; 0; 16711680; 0]))
  /\ 0 <= SimulationShader.countNonZero [255; 0; 0; 65280; 0; 0; 16711680; 0] <= 8
  /\ SimulationShader.countNonZero [0; 0; 0; 0; 0; 255; 65280; 16711680]
     = SimulationShader.countNonZero [255; 0; 0; 65280; 0; 0; 16711680; 0]
  /\ (SimulationShader.countNonZero [255; 0; 0; 65280; 0; 0; 16711680; 0] = 0
      <-> Forall (fun c => c = 0) [255; 0; 0; 65280; 0; 0; 16711680; 0])
  /\ (SimulationShader.countNonZero [255; 0; 0; 65280; 0; 0; 16711680; 0] = 8
      <-> Forall (fun c => c <> 0) [255; 0; 0; 65280; 0; 0; 16711680; 0]).
Proof.
  apply (X1_countNonZero_counts [255; 0; 0; 65280; 0; 0; 16711680; 0]
           [0; 0; 0; 0; 0; 255; 65280; 16711680]);
    first [reflexivity | compute_done].
Defined.

(** ** The colour rule *)

Lemma sumOver_member (f : Z -> Z) (colors : list Z) (c : Z) :
  (forall d, 0 <= f d) -> In c colors -> f c <= sumOver f colors.
Proof.
  intros Hf. induction colors as [| d colors IH]; intros Hin; [destruct Hin |].
  cbn [sumOver foldr]. fold (sumOver f colors).
  assert (0 <= sumOver f colors).
  { clear IH Hin. induction colors as [| e colors IH]; cbn [sumOver foldr]; [lia |].
    fold (sumOver f colors). specialize (Hf e). lia. }
  destruct Hin as [-> | Hin]; [lia |]. specialize (IH Hin). specialize (Hf d). lia.
Qed.

Lemma channel_nonneg (c : Z) : 0 <= red c /\ 0 <= green c /\ 0 <= blue c.
Proof.
  rewrite red_spec, green_spec, blue_spec.
  pose proof (Z.mod_pos_bound c 256 ltac:(lia)).
  pose proof (Z.mod_pos_bound (c / 256) 256 ltac:(lia)).
  pose proof (Z.mod_pos_bound (c / 65536) 256 ltac:(lia)). lia.
Qed.

Lemma channel_byte (c : Z) : red c <= 255 /\ green c <= 255 /\ blue c <= 255.
Proof.
  rewrite red_spec, green_spec, blue_spec.
  pose proof (Z.mod_pos_bound c 256 ltac:(lia)).
  pose proof (Z.mod_pos_bound (c / 256) 256 ltac:(lia)).
  pose proof (Z.mod_pos_bound (c / 65536) 256 ltac:(lia)). lia.
Qed.

(** With three non-zero colours among eight whose top byte is zero, the
    average is not zero. *)
Lemma birth_alive (colors : list Z) :
  length colors = 8%nat -> Forall packed colors ->
  SimulationShader.countNonZero colors = 3 ->
  SimulationShader.averageColor colors <> 0.
Proof.
  intros Hlen Hpacked Hcount.
  rewrite birth_never_truncates by assumption.
  rewrite countNonZero_spec in Hcount by assumption.
  destruct (filter (fun c => c <> 0) colors) as [| c rest] eqn:Hfilter;
    [discriminate Hcount |].
  assert (Hc : c ∈ filter (fun c => c <> 0) colors)
    by (rewrite Hfilter; apply list_elem_of_here).
  apply list_elem_of_filter in Hc. destruct Hc as [Hc0 Hc].
  pose proof (proj1 (Forall_forall _ _) Hpacked c Hc) as Hp.
  apply packed_channels in Hp. apply list_elem_of_In in Hc.
  pose proof (sumOver_member red colors c (fun d => proj1 (channel_nonneg d)) Hc).
  pose proof (sumOver_member green colors c
                (fun d => proj1 (proj2 (channel_nonneg d))) Hc).
  pose proof (sumOver_member blue colors c
                (fun d => proj2 (proj2 (channel_nonneg d))) Hc).
  destruct (channel_nonneg c) as (? & ? & ?).
  assert (Hsome : 1 <= sumOver red colors \/ 1 <= sumOver green colors
                  \/ 1 <= sumOver blue colors) by lia.
  assert (Hq : forall s, 0 <= s -> 0 <= (s + 2) / 3)
    by (intros; apply Z.div_pos; lia).
  assert (Hq1 : forall s, 1 <= s -> 1 <= (s + 2) / 3)
    by (intros; apply Z.div_le_lower_bound; lia).
  pose proof (Hq (sumOver red colors) ltac:(lia)).
  pose proof (Hq (sumOver green colors) ltac:(lia)).
  pose proof (Hq (sumOver blue colors) ltac:(lia)).
  destruct Hsome as [Hs | [Hs | Hs]]; apply Hq1 in Hs; lia.
Qed.

Lemma neighbourColors_packed (grid : vec2) (cellStateIn : list Z) (cell : vec2) :
  Forall packed cellStateIn ->
  Forall packed (SimulationShader.neighbourColors grid cellStateIn cell).
Proof.
  intros Hin.
  assert (Hread : forall i, packed (readBuf cellStateIn i)).
  { intros i. unfold readBuf.
    destruct (cellStateIn !! Z.to_nat i) as [v |] eqn:Hv; cbn [default].
    - exact (proj1 (Forall_lookup _ _) Hin _ _ Hv).
    - unfold packed. lia. }
  unfold SimulationShader.neighbourColors, SimulationShader.cellColor.
  repeat (apply Forall_cons; split; [apply Hread |]). apply Forall_nil. exact I.
Qed.

(** X2. The average does not depend on the order in which the eight
    neighbours are gathered. *)
Theorem X2_averageColor_any_order (colors colors' : list Z) :
  length colors = 8%nat -> colors ≡ₚ colors' ->
  SimulationShader.averageColor colors' = SimulationShader.averageColor colors.
Proof.
  intros Hlen Hperm.
  rewrite !averageColor_spec by (rewrite <- ?Hperm; exact Hlen).
  unfold specAverage. now rewrite !(sumOver_perm _ _ _ Hperm).
Qed.

Lemma X2_averageColor_any_order_witness :
  SimulationShader.averageColor [0; 255; 0; 16711680; 0; 0; 65280; 255]
  = SimulationShader.averageColor [255; 255; 65280; 16711680; 0; 0; 0; 0].
Proof.
  apply (X2_averageColor_any_order [255; 255; 65280; 16711680; 0; 0; 0; 0]
           [0; 255; 0; 16711680; 0; 0; 65280; 255]);
    first [reflexivity | compute_done].
Defined.

(** X3. When exactly three of the eight neighbours are non-zero and all
    have their top byte zero, every channel of the average is the biased
    third of the channel's sum itself, at most 255: the masks of
    [averageColor] cut nothing off, and the result is a non-zero colour
    with its top byte zero. *)
Theorem X3_birth_exact_thirds (colors : list Z) :
  length colors = 8%nat -> Forall packed colors ->
  SimulationShader.countNonZero colors = 3 ->
  red (SimulationShader.averageColor colors) = (sumOver red colors + 2) / 3
  /\ green (SimulationShader.averageColor colors) = (sumOver green colors + 2) / 3
  /\ blue (SimulationShader.averageColor colors) = (sumOver blue colors + 2) / 3
  /\ packed (SimulationShader.averageColor colors)
  /\ SimulationShader.averageColor colors <> 0.
Proof.
  intros Hlen Hpacked Hcount.
  destruct (averageColor_channels colors Hlen) as (Hr & Hg & Hb).
  pose proof (birth_never_truncates colors Hlen Hcount) as Hexact.
  pose proof Hcount as Hcount'.
  rewrite countNonZero_spec in Hcount' by assumption.
  assert (Hbound : forall f : Z -> Z,
             f 0 = 0 -> (forall c, 0 <= f c <= 255) ->
             0 <= (sumOver f colors + 2) / 3 < 256).
  { intros f H0 Hf.
    pose proof (sumOver_nonzero f 255 colors H0 Hf) as Hle.
    pose proof (sumOver_range f 255 colors Hf) as Hge.
    rewrite Hcount' in Hle.
    split; [apply Z.div_pos; lia | apply Z.div_lt_upper_bound; lia]. }
  assert (Hch : forall c, (0 <= red c <= 255) /\ (0 <= green c <= 255)
                          /\ (0 <= blue c <= 255)).
  { intros c. pose proof (channel_nonneg c). pose proof (channel_byte c). lia. }
  rewrite Hr, Hg, Hb.
  rewrite !Z.mod_small.
  - repeat split; try reflexivity.
    + rewrite averageColor_spec by assumption. apply specAverage_packed.
    + rewrite averageColor_spec by assumption. apply specAverage_packed.
    + now apply birth_alive.
  - apply (Hbound blue eq_refl). intros c. apply Hch.
  - apply (Hbound green eq_refl). intros c. apply Hch.
  - apply (Hbound red eq_refl). intros c. apply Hch.
Qed.

Lemma X3_birth_exact_thirds_witness :
  red (SimulationShader.averageColor [255; 255; 0; 65280; 0; 0; 0; 0])
  = (sumOver red [255; 255; 0; 65280; 0; 0; 0; 0] + 2) / 3
  /\ green (SimulationShader.averageColor [255; 255; 0; 65280; 0; 0; 0; 0])
     = (sumOver green [255; 255; 0; 65280; 0; 0; 0; 0] + 2) / 3
  /\ blue (SimulationShader.averageColor [255; 255; 0; 65280; 0; 0; 0; 0])
     = (sumOver blue [255; 255; 0; 65280; 0; 0; 0; 0] + 2) / 3
  /\ packed (SimulationShader.averageColor [255; 255; 0; 65280; 0; 0; 0; 0])
  /\ SimulationShader.averageColor [255; 255; 0; 65280; 0; 0; 0; 0] <> 0.
Proof.
  apply (X3_birth_exact_thirds [255; 255; 0; 65280; 0; 0; 0; 0]);
    first [reflexivity | repeat constructor; unfold packed; lia].
Defined.

(** X4. On buffers whose cells have their top byte zero, being non-zero
    follows Conway's rule: after a tick a cell of the grid is non-zero
    exactly when it has three non-zero neighbours, or two and was non-zero
    itself. *)
Theorem X4_alive_by_conway_rule (N W : Z) (w : world) (x y : Z) :
  0 < W -> N mod W = 0 -> 0 < N -> N * N <= 2 ^ 32 ->
  sized N (device w) ->
  Forall packed (getBuf (device w) (step w mod 2)) ->
  0 <= x < N -> 0 <= y < N ->
  readBuf (getBuf (device (updateGrid N W w)) ((step w + 1) mod 2)) (y * N + x) <> 0
  <-> SimulationShader.countNonZero
        (SimulationShader.neighbourColors (Vec2 N N)
           (getBuf (device w) (step w mod 2)) (Vec2 x y)) = 3
      \/ (SimulationShader.countNonZero
            (SimulationShader.neighbourColors (Vec2 N N)
               (getBuf (device w) (step w mod 2)) (Vec2 x y)) = 2
          /\ readBuf (getBuf (device w) (step w mod 2)) (y * N + x) <> 0).
Proof.
  intros HW Hdiv HN Hfits Hsized Hpacked Hx Hy.
  rewrite (transition_read N W HW Hdiv HN Hfits) by assumption.
  unfold nextColor. rewrite (cellIndex_inside N HN Hfits) by assumption.
  set (count := SimulationShader.countNonZero _).
  destruct (Z.eqb_spec count 2) as [H2 | H2].
  - split; [intros Hne; right; now split | intros [H3 | [_ Hne]]; [lia | exact Hne]].
  - destruct (Z.eqb_spec count 3) as [H3 | H3].
    + split; [now left |]. intros _.
      apply birth_alive;
        [apply neighbourColors_length | now apply neighbourColors_packed | exact H3].
    + split; [intros Hne; now destruct Hne | intros [? | [? _]]; lia].
Qed.

Lemma X4_alive_by_conway_rule_witness :
  readBuf (getBuf (device (updateGrid 4 2 exampleWorld))
             ((step exampleWorld + 1) mod 2)) (1 * 4 + 1) <> 0
  <-> SimulationShader.countNonZero
        (SimulationShader.neighbourColors (Vec2 4 4)
           (getBuf (device exampleWorld) (step exampleWorld mod 2)) (Vec2 1 1)) = 3
      \/ (SimulationShader.countNonZero
            (SimulationShader.neighbourColors (Vec2 4 4)
               (getBuf (device exampleWorld) (step exampleWorld mod 2)) (Vec2 1 1)) = 2
          /\ readBuf (getBuf (device exampleWorld) (step exampleWorld mod 2))
               (1 * 4 + 1) <> 0).
Proof.
  apply (X4_alive_by_conway_rule 4 2 exampleWorld 1 1);
    first [lia | reflexivity | split; reflexivity
          | repeat constructor; unfold packed; lia].
Defined.

(** ** Whole generations *)

Lemma generation_length (N : Z) (cellStateIn : list Z) :
  length (generation N cellStateIn) = Z.to_nat (N * N).
Proof. unfold generation. now rewrite length_fmap, length_seqZ. Qed.

Lemma generation_lookup (N : Z) (cellStateIn : list Z) (j : nat) :
  (j < Z.to_nat (N * N))%nat ->
  generation N cellStateIn !! j
  = Some (nextColor (Vec2 N N) cellStateIn
            (Vec2 (Z.of_nat j mod N) (Z.of_nat j / N))).
Proof.
  intros Hj. unfold generation.
  rewrite list_lookup_fmap, lookup_seqZ_lt by lia. reflexivity.
Qed.

(** The buffer a tick writes is the generation of the buffer it reads. *)
Lemma tick_generation (N W : Z) (w : world) :
  0 < W -> N mod W = 0 -> 0 < N -> N * N <= 2 ^ 32 ->
  sized N (device w) ->
  getBuf (device (updateGrid N W w)) ((step w + 1) mod 2)
  = generation N (getBuf (device w) (step w mod 2)).
Proof.
  intros HW Hdiv HN Hfits Hsized. apply list_eq. intros j.
  assert (Hlen : length (getBuf (device (updateGrid N W w)) ((step w + 1) mod 2))
                 = Z.to_nat (N * N))
    by (apply sized_getBuf, (updateGrid_sized N W), Hsized).
  destruct (le_lt_dec (Z.to_nat (N * N)) j) as [Hge | Hlt].
  - rewrite !(proj2 (lookup_ge_None _ _));
      [reflexivity | now rewrite generation_length | now rewrite Hlen].
  - rewrite generation_lookup by exact Hlt.
    assert (Hxy : Z.of_nat j = Z.of_nat j / N * N + Z.of_nat j mod N)
      by (rewrite (Z.div_mod (Z.of_nat j) N) at 1 by lia; lia).
    assert (Hx : 0 <= Z.of_nat j mod N < N) by (apply Z.mod_pos_bound; lia).
    assert (Hy : 0 <= Z.of_nat j / N < N).
    { split; [apply Z.div_pos; lia | apply Z.div_lt_upper_bound; lia]. }
    pose proof (transition_cell N W HW Hdiv HN Hfits w _ _ Hsized Hx Hy) as Hcell.
    now rewrite <- Hxy, Nat2Z.id in Hcell.
Qed.

Lemma ticks_sized (N W : Z) (random : nat -> Q) (k : nat) :
  sized N (device (ticks N W k (initialWorld N random))).
Proof.
  induction k as [| k IH].
  - split; [apply cellStateArray_length | apply length_replicate].
  - change (ticks N W (S k) (initialWorld N random))
      with (updateGrid N W (ticks N W k (initialWorld N random))).
    now apply updateGrid_sized.
Qed.

Lemma draw_frameOf (N : Z) (group : bindGroup) (vertexCount instanceCount : Z)
    (s : storage) :
  draw N group vertexCount instanceCount s
  = frameOf N (getBuf s (binding1 group)) vertexCount instanceCount.
Proof. reflexivity. Qed.

(** C6. Tick k (the counter starts at 0 and is k when the tick begins)
    records a compute pass whose bind group reads buffer k mod 2 and writes
    buffer (k+1) mod 2, then a render pass whose bind group reads buffer
    (k+1) mod 2; the counter is k+1 after the tick.  After the tick,
    buffer (k+1) mod 2 holds the generation computed from buffer k mod 2,
    which is as it was, and the frame the tick presents is drawn from the
    contents of buffer (k+1) mod 2, that generation.  Buffer (k+1) mod 2
    is neither the one this compute pass read nor the one the compute pass
    of tick k+1 writes: tick k+1 leaves it as it is. *)
Theorem C6_render_reads_written_buffer (N W : Z) (random : nat -> Q) (k : nat) :
  0 < W -> N mod W = 0 -> 0 < N -> N * N <= 2 ^ 32 ->
  let before := ticks N W k (initialWorld N random) in
  let after := ticks N W (S k) (initialWorld N random) in
  step before = Z.of_nat k
  /\ recorded N W (Z.of_nat k)
     = ([ ComputePass {| binding1 := Z.of_nat k mod 2;
                         binding2 := (Z.of_nat k + 1) mod 2 |}
            (workgroupCount N W) (workgroupCount N W);
          RenderPass {| binding1 := (Z.of_nat k + 1) mod 2;
                        binding2 := (Z.of_nat k + 1 + 1) mod 2 |}
            6 (N * N) ],
        Z.of_nat k + 1)
  /\ step after = Z.of_nat k + 1
  /\ getBuf (device after) ((Z.of_nat k + 1) mod 2)
     = generation N (getBuf (device before) (Z.of_nat k mod 2))
  /\ getBuf (device after) (Z.of_nat k mod 2)
     = getBuf (device before) (Z.of_nat k mod 2)
  /\ last (presented after)
     = Some (frameOf N (getBuf (device after) ((Z.of_nat k + 1) mod 2)) 6 (N * N))
  /\ last (presented after)
     = Some (frameOf N (generation N (getBuf (device before) (Z.of_nat k mod 2)))
               6 (N * N))
  /\ getBuf (device (updateGrid N W after)) ((Z.of_nat k + 1) mod 2)
     = getBuf (device after) ((Z.of_nat k + 1) mod 2)
  /\ (Z.of_nat k + 1) mod 2 <> Z.of_nat k mod 2
  /\ (Z.of_nat k + 1) mod 2 <> (Z.of_nat k + 1 + 1) mod 2.
Proof.
  intros HW Hdiv HN Hfits before after.
  assert (Hstep : step before = Z.of_nat k)
    by (unfold before; rewrite ticks_step; cbn; lia).
  assert (Hstep' : step after = Z.of_nat k + 1)
    by (unfold after; rewrite ticks_step; cbn [initialWorld step]; lia).
  assert (Hafter : after = updateGrid N W before) by reflexivity.
  assert (Hgen : getBuf (device after) ((Z.of_nat k + 1) mod 2)
                 = generation N (getBuf (device before) (Z.of_nat k mod 2))).
  { rewrite Hafter, <- Hstep.
    apply tick_generation; try assumption. apply ticks_sized. }
  assert (Hframe : last (presented after)
                   = Some (frameOf N (getBuf (device after) ((Z.of_nat k + 1) mod 2))
                             6 (N * N))).
  { rewrite Hafter at 1.
    rewrite updateGrid_presented, last_snoc, draw_frameOf, Hstep, bindGroupAt_parity.
    cbn [binding1]. now rewrite <- Hafter. }
  split; [exact Hstep |]. split; [| split; [exact Hstep' |]].
  { unfold recorded. now rewrite !bindGroupAt_parity. }
  split; [exact Hgen |]. split; [| split; [exact Hframe |]].
  { rewrite Hafter, <- Hstep. apply updateGrid_read_unchanged. }
  split; [now rewrite Hframe, Hgen |]. split; [| split].
  - rewrite <- Hstep'. apply updateGrid_read_unchanged.
  - rewrite (Z.add_mod (Z.of_nat k) 1 2) by lia.
    pose proof (Z.mod_pos_bound (Z.of_nat k) 2 ltac:(lia)).
    assert (H2 : Z.of_nat k mod 2 = 0 \/ Z.of_nat k mod 2 = 1) by lia.
    destruct H2 as [-> | ->]; vm_compute; discriminate.
  - rewrite (Z.add_mod (Z.of_nat k + 1) 1 2) by lia.
    pose proof (Z.mod_pos_bound (Z.of_nat k + 1) 2 ltac:(lia)).
    assert (H2 : (Z.of_nat k + 1) mod 2 = 0 \/ (Z.of_nat k + 1) mod 2 = 1) by lia.
    destruct H2 as [-> | ->]; vm_compute; discriminate.
Qed.

Lemma C6_render_reads_written_buffer_witness :
  (0 < 2 /\ 4 mod 2 = 0 /\ 0 < 4 /\ 4 * 4 <= 2 ^ 32)
  /\
  let before := ticks 4 2 3 (initialWorld 4 (fun i => Z.of_nat i # 40)) in
  let after := ticks 4 2 4 (initialWorld 4 (fun i => Z.of_nat i # 40)) in
  step before = Z.of_nat 3
  /\ recorded 4 2 (Z.of_nat 3)
     = ([ ComputePass {| binding1 := Z.of_nat 3 mod 2;
                         binding2 := (Z.of_nat 3 + 1) mod 2 |}
            (workgroupCount 4 2) (workgroupCount 4 2);
          RenderPass {| binding1 := (Z.of_nat 3 + 1) mod 2;
                        binding2 := (Z.of_nat 3 + 1 + 1) mod 2 |}
            6 (4 * 4) ],
        Z.of_nat 3 + 1)
  /\ step after = Z.of_nat 3 + 1
  /\ getBuf (device after) ((Z.of_nat 3 + 1) mod 2)
     = generation 4 (getBuf (device before) (Z.of_nat 3 mod 2))
  /\ getBuf (device after) (Z.of_nat 3 mod 2)
     = getBuf (device before) (Z.of_nat 3 mod 2)
  /\ last (presented after)
     = Some (frameOf 4 (getBuf (device after) ((Z.of_nat 3 + 1) mod 2)) 6 (4 * 4))
  /\ last (presented after)
     = Some (frameOf 4 (generation 4 (getBuf (device before) (Z.of_nat 3 mod 2)))
               6 (4 * 4))
  /\ getBuf (device (updateGrid 4 2 after)) ((Z.of_nat 3 + 1) mod 2)
     = getBuf (device after) ((Z.of_nat 3 + 1) mod 2)
  /\ (Z.of_nat 3 + 1) mod 2 <> Z.of_nat 3 mod 2
  /\ (Z.of_nat 3 + 1) mod 2 <> (Z.of_nat 3 + 1 + 1) mod 2.
Proof.
  split; [repeat split; first [lia | reflexivity] |].
  apply (C6_render_reads_written_buffer 4 2 (fun i => Z.of_nat i # 40) 3);
    first [lia | reflexivity].
Defined.

(** X5. Whatever the order in which the invocations of a tick's dispatch
    run, the device ends in the same state. *)
Theorem X5_any_invocation_order (N W : Z) (s : storage) (k : Z)
    (schedule : list vec2) :
  0 < W -> N mod W = 0 -> 0 < N -> N * N <= 2 ^ 32 ->
  schedule ≡ₚ invocationIds W (workgroupCount N W) (workgroupCount N W) ->
  fold_left (invoke N (bindGroupAt (k mod 2))) schedule s
  = runComputePass N W (bindGroupAt (k mod 2))
      (workgroupCount N W) (workgroupCount N W) s.
Proof.
  intros HW Hdiv HN Hfits Hperm. now apply schedule_irrelevant.
Qed.

Lemma X5_any_invocation_order_witness :
  fold_left (invoke 4 (bindGroupAt (0 mod 2))) exampleSchedule (device exampleWorld)
  = runComputePass 4 2 (bindGroupAt (0 mod 2))
      (workgroupCount 4 2) (workgroupCount 4 2) (device exampleWorld).
Proof.
  apply (X5_any_invocation_order 4 2 (device exampleWorld) 0 exampleSchedule);
    first [lia | reflexivity | compute_done].
Defined.

(** X6. The buffer a tick writes is, cell by cell in row-major order, what
    [computeMain] computes from the buffer the tick reads; nothing of what
    the written buffer held before survives, so two devices that agree on
    the read buffer agree on the written buffer after the tick. *)
Theorem X6_tick_writes_generation (N W : Z) (w w' : world) :
  0 < W -> N mod W = 0 -> 0 < N -> N * N <= 2 ^ 32 ->
  sized N (device w) -> sized N (device w') ->
  step w' = step w ->
  getBuf (device w') (step w mod 2) = getBuf (device w) (step w mod 2) ->
  getBuf (device (updateGrid N W w)) ((step w + 1) mod 2)
  = generation N (getBuf (device w) (step w mod 2))
  /\ getBuf (device (updateGrid N W w')) ((step w + 1) mod 2)
     = getBuf (device (updateGrid N W w)) ((step w + 1) mod 2).
Proof.
  intros HW Hdiv HN Hfits Hsized Hsized' Hstep Hread.
  pose proof (tick_generation N W w HW Hdiv HN Hfits Hsized) as Hw.
  pose proof (tick_generation N W w' HW Hdiv HN Hfits Hsized') as Hw'.
  rewrite Hstep, Hread in Hw'. split; [exact Hw | now rewrite Hw, Hw'].
Qed.

Lemma X6_tick_writes_generation_witness :
  getBuf (device (updateGrid 4 2 exampleWorld)) ((step exampleWorld + 1) mod 2)
  = generation 4 (getBuf (device exampleWorld) (step exampleWorld mod 2))
  /\ getBuf (device (updateGrid 4 2
                       {| step := 0;
                          device := {| bufA := exampleBuffer; bufB := exampleBuffer |};
                          presented := [] |}))
       ((step exampleWorld + 1) mod 2)
     = getBuf (device (updateGrid 4 2 exampleWorld)) ((step exampleWorld + 1) mod 2).
Proof.
  apply (X6_tick_writes_generation 4 2 exampleWorld
           {| step := 0;
              device := {| bufA := exampleBuffer; bufB := exampleBuffer |};
              presented := [] |});
    first [lia | reflexivity | split; reflexivity].
Defined.

(** X7. From the seeded device, the buffer that tick k reads is the k-th
    generation of the seeded array, and the frame presented by tick k is
    drawn from generation k+1. *)
Theorem X7_run_iterates_generation (N W : Z) (random : nat -> Q) (k : nat) :
  0 < W -> N mod W = 0 -> 0 < N -> N * N <= 2 ^ 32 ->
  getBuf (device (ticks N W k (initialWorld N random))) (Z.of_nat k mod 2)
  = Nat.iter k (generation N) (cellStateArray N random)
  /\ last (presented (ticks N W (S k) (initialWorld N random)))
     = Some (frameOf N (Nat.iter (S k) (generation N) (cellStateArray N random))
               6 (N * N)).
Proof.
  intros HW Hdiv HN Hfits.
  assert (Hstep : forall n, step (ticks N W n (initialWorld N random)) = Z.of_nat n)
    by (intros n; rewrite ticks_step; cbn; lia).
  assert (Hgen : forall n,
             getBuf (device (ticks N W n (initialWorld N random))) (Z.of_nat n mod 2)
             = Nat.iter n (generation N) (cellStateArray N random)).
  { induction n as [| n IH]; [reflexivity |].
    change (ticks N W (S n) (initialWorld N random))
      with (updateGrid N W (ticks N W n (initialWorld N random))).
    pose proof (tick_generation N W _ HW Hdiv HN Hfits (ticks_sized N W random n))
      as Htick.
    rewrite Hstep, IH in Htick.
    replace (Z.of_nat (S n)) with (Z.of_nat n + 1) by lia.
    rewrite Htick. reflexivity. }
  split; [apply Hgen |].
  change (ticks N W (S k) (initialWorld N random))
    with (updateGrid N W (ticks N W k (initialWorld N random))).
  rewrite updateGrid_presented, last_snoc, draw_frameOf, Hstep, bindGroupAt_parity.
  cbn [binding1].
  change (updateGrid N W (ticks N W k (initialWorld N random)))
    with (ticks N W (S k) (initialWorld N random)).
  specialize (Hgen (S k)).
  replace (Z.of_nat (S k)) with (Z.of_nat k + 1) in Hgen by lia.
  now rewrite Hgen.
Qed.

Lemma X7_run_iterates_generation_witness :
  getBuf (device (ticks 4 2 3 (initialWorld 4 (fun i => Z.of_nat i # 40))))
    (Z.of_nat 3 mod 2)
  = Nat.iter 3 (generation 4) (cellStateArray 4 (fun i => Z.of_nat i # 40))
  /\ last (presented (ticks 4 2 4 (initialWorld 4 (fun i => Z.of_nat i # 40))))
     = Some (frameOf 4
               (Nat.iter 4 (generation 4) (cellStateArray 4 (fun i => Z.of_nat i # 40)))
               6 (4 * 4)).
Proof.
  apply (X7_run_iterates_generation 4 2 (fun i => Z.of_nat i # 40) 3);
    first [lia | reflexivity].
Defined.

(** X8. From the seeded device on, after any number of ticks, both buffers
    keep their N*N cells and every cell keeps its top byte zero. *)
Theorem X8_run_keeps_buffers_packed (N W : Z) (random : nat -> Q) (k : nat) :
  0 < W -> N mod W = 0 -> 0 < N -> N * N <= 2 ^ 32 ->
  sized N (device (ticks N W k (initialWorld N random)))
  /\ Forall packed (getBuf (device (ticks N W k (initialWorld N random))) 0)
  /\ Forall packed (getBuf (device (ticks N W k (initialWorld N random))) 1).
Proof. intros HW Hdiv HN Hfits. now apply run_packed. Qed.

Lemma X8_run_keeps_buffers_packed_witness :
  sized 4 (device (ticks 4 2 3 (initialWorld 4 (fun i => Z.of_nat i # 40))))
  /\ Forall packed
       (getBuf (device (ticks 4 2 3 (initialWorld 4 (fun i => Z.of_nat i # 40)))) 0)
  /\ Forall packed
       (getBuf (device (ticks 4 2 3 (initialWorld 4 (fun i => Z.of_nat i # 40)))) 1).
Proof.
  apply (X8_run_keeps_buffers_packed 4 2 (fun i => Z.of_nat i # 40) 3);
    first [lia | reflexivity].
Defined.

Lemma dead_reads (cellStateIn : list Z) (i : Z) :
  Forall (fun v => v = 0) cellStateIn -> readBuf cellStateIn i = 0.
Proof.
  intros Hdead. unfold readBuf.
  destruct (cellStateIn !! Z.to_nat i) as [v |] eqn:Hv; cbn [default];
    [exact (proj1 (Forall_lookup _ _) Hdead _ _ Hv) | reflexivity].
Qed.

Lemma dead_nextColor (grid : vec2) (cellStateIn : list Z) (cell : vec2) :
  Forall (fun v => v = 0) cellStateIn -> nextColor grid cellStateIn cell = 0.
Proof.
  intros Hdead. unfold nextColor, SimulationShader.neighbourColors,
    SimulationShader.cellColor.
  now rewrite !(dead_reads _ _ Hdead).
Qed.

(** X9. A read buffer with no non-zero cell gives a written buffer with
    no non-zero cell: the empty grid stays empty. *)
Theorem X9_dead_grid_stays_dead (N W : Z) (w : world) :
  0 < W -> N mod W = 0 -> 0 < N -> N * N <= 2 ^ 32 ->
  sized N (device w) ->
  Forall (fun v => v = 0) (getBuf (device w) (step w mod 2)) ->
  getBuf (device (updateGrid N W w)) ((step w + 1) mod 2)
  = replicate (Z.to_nat (N * N)) 0.
Proof.
  intros HW Hdiv HN Hfits Hsized Hdead.
  rewrite tick_generation by assumption.
  apply list_eq. intros j.
  destruct (le_lt_dec (Z.to_nat (N * N)) j) as [Hge | Hlt].
  - rewrite !(proj2 (lookup_ge_None _ _));
      [reflexivity | now rewrite length_replicate | now rewrite generation_length].
  - rewrite generation_lookup, lookup_replicate_2 by exact Hlt.
    now rewrite dead_nextColor.
Qed.

Lemma X9_dead_grid_stays_dead_witness :
  getBuf (device (updateGrid 4 2
                    {| step := 0;
                       device := {| bufA := replicate 16 0; bufB := exampleBuffer |};
                       presented := [] |}))
    ((0 + 1) mod 2)
  = replicate (Z.to_nat (4 * 4)) 0.
Proof.
  apply (X9_dead_grid_stays_dead 4 2
           {| step := 0;
              device := {| bufA := replicate 16 0; bufB := exampleBuffer |};
              presented := [] |});
    first [lia | reflexivity | split; reflexivity | repeat constructor].
Defined.

(** ** Bounds *)

(** X10. Whatever the invocation id, inside the grid or not, the index
    [cellIndex] computes lies within a buffer of N*N cells: [cellColor]
    reads an element of the buffer, and the single store of [computeMain]
    lands in the output buffer, leaves its length alone and changes no
    other element. *)
Theorem X10_accesses_stay_in_bounds (N : Z) (cellStateIn cellStateOut : list Z)
    (cell : vec2) :
  0 < N -> N * N <= 2 ^ 32 ->
  length cellStateIn = Z.to_nat (N * N) ->
  length cellStateOut = Z.to_nat (N * N) ->
  0 <= SimulationShader.cellIndex (Vec2 N N) cell < N * N
  /\ cellStateIn !! Z.to_nat (SimulationShader.cellIndex (Vec2 N N) cell)
     = Some (SimulationShader.cellColor (Vec2 N N) cellStateIn (vx cell) (vy cell))
  /\ SimulationShader.computeMain (Vec2 N N) cellStateIn cellStateOut cell
       !! Z.to_nat (SimulationShader.cellIndex (Vec2 N N) cell)
     = Some (nextColor (Vec2 N N) cellStateIn cell)
  /\ length (SimulationShader.computeMain (Vec2 N N) cellStateIn cellStateOut cell)
     = length cellStateOut
  /\ (forall j : nat,
        j <> Z.to_nat (SimulationShader.cellIndex (Vec2 N N) cell) ->
        SimulationShader.computeMain (Vec2 N N) cellStateIn cellStateOut cell !! j
        = cellStateOut !! j).
Proof.
  intros HN Hfits Hin Hout.
  pose proof (cellIndex_range N HN Hfits cell) as Hrange.
  split; [exact Hrange |]. rewrite computeMain_store. split; [| split; [| split]].
  - unfold SimulationShader.cellColor, readBuf. destruct cell as [x y]. cbn [vx vy].
    destruct (lookup_lt_is_Some_2 cellStateIn
                (Z.to_nat (SimulationShader.cellIndex (Vec2 N N) (Vec2 x y))))
      as [v Hv]; [rewrite Hin; lia |].
    now rewrite Hv.
  - apply list_lookup_insert_eq. rewrite Hout. lia.
  - apply length_insert.
  - intros j Hj. now apply list_lookup_insert_ne.
Qed.

Lemma X10_accesses_stay_in_bounds_witness :
  0 <= SimulationShader.cellIndex (Vec2 4 4) (Vec2 4294967295 6) < 4 * 4
  /\ exampleBuffer !! Z.to_nat (SimulationShader.cellIndex (Vec2 4 4) (Vec2 4294967295 6))
     = Some (SimulationShader.cellColor (Vec2 4 4) exampleBuffer
               (vx (Vec2 4294967295 6)) (vy (Vec2 4294967295 6)))
  /\ SimulationShader.computeMain (Vec2 4 4) exampleBuffer (replicate 16 7)
       (Vec2 4294967295 6)
       !! Z.to_nat (SimulationShader.cellIndex (Vec2 4 4) (Vec2 4294967295 6))
     = Some (nextColor (Vec2 4 4) exampleBuffer (Vec2 4294967295 6))
  /\ length (SimulationShader.computeMain (Vec2 4 4) exampleBuffer (replicate 16 7)
               (Vec2 4294967295 6))
     = length (replicate 16 7)
  /\ (forall j : nat,
        j <> Z.to_nat (SimulationShader.cellIndex (Vec2 4 4) (Vec2 4294967295 6)) ->
        SimulationShader.computeMain (Vec2 4 4) exampleBuffer (replicate 16 7)
          (Vec2 4294967295 6) !! j
        = replicate 16 7 !! j).
Proof.
  apply (X10_accesses_stay_in_bounds 4 exampleBuffer (replicate 16 7)
           (Vec2 4294967295 6));
    first [lia | reflexivity].
Defined.

(** X11. The left neighbour of column 0 is read in column
    (2^32 - 1) mod N, because x - 1 wraps around 2^32 before the remainder
    is taken; that is the last column N - 1 exactly when N divides 2^32.
    The same holds for rows. *)
Theorem X11_left_of_column_0 (N y : Z) :
  0 < N -> N * N <= 2 ^ 32 -> 0 <= y < N ->
  SimulationShader.cellIndex (Vec2 N N) (Vec2 (u32 (0 - 1)) y)
  = y * N + (2 ^ 32 - 1) mod N
  /\ SimulationShader.cellIndex (Vec2 N N) (Vec2 y (u32 (0 - 1)))
     = (2 ^ 32 - 1) mod N * N + y
  /\ ((2 ^ 32 - 1) mod N = N - 1 <-> 2 ^ 32 mod N = 0).
Proof.
  intros HN Hfits Hy.
  change (u32 (0 - 1)) with (2 ^ 32 - 1).
  rewrite !(cellIndex_eq N HN Hfits), !(Z.mod_small y N) by lia.
  split; [reflexivity |]. split; [reflexivity |].
  pose proof (Z.mod_pos_bound (2 ^ 32 - 1) N HN) as Hb.
  split.
  - intros Hm. replace (2 ^ 32) with (2 ^ 32 - 1 + 1) at 1 by lia.
    rewrite Z.add_mod, Hm by lia.
    destruct (Z.eq_dec N 1) as [-> | HN1]; [reflexivity |].
    rewrite (Z.mod_small 1 N) by lia.
    replace (N - 1 + 1) with N by lia. apply Z.mod_same. lia.
  - intros Hdiv. apply Z.mod_divide in Hdiv; [| lia]. destruct Hdiv as [q Hq].
    symmetry. apply (Z.mod_unique _ _ (q - 1)); lia.
Qed.

Lemma X11_left_of_column_0_witness :
  SimulationShader.cellIndex (Vec2 3 3) (Vec2 (u32 (0 - 1)) 1)
  = 1 * 3 + (2 ^ 32 - 1) mod 3
  /\ SimulationShader.cellIndex (Vec2 3 3) (Vec2 1 (u32 (0 - 1)))
     = (2 ^ 32 - 1) mod 3 * 3 + 1
  /\ ((2 ^ 32 - 1) mod 3 = 3 - 1 <-> 2 ^ 32 mod 3 = 0).
Proof.
  apply (X11_left_of_column_0 3 1); lia.
Defined.

(** ** Workgroups that overhang the grid *)

Lemma workgroups_reach (N W : Z) :
  0 < W -> 0 < N ->
  N <= workgroupCount N W * W /\ (workgroupCount N W - 1) * W < N.
Proof.
  intros HW HN. unfold workgroupCount.
  pose proof (Z.div_mod (N + W - 1) W ltac:(lia)) as Hdm.
  pose proof (Z.mod_pos_bound (N + W - 1) W HW) as Hb.
  nia.
Qed.

(** X12. The number of workgroups per axis is the least that covers the
    side of the grid, so every cell of the grid has an invocation, and the
    invocations that overhang the grid are fewer than one workgroup per
    axis. *)
Theorem X12_dispatch_covers_grid (N W x y : Z) :
  0 < W -> 0 < N -> 0 <= x < N -> 0 <= y < N ->
  N <= workgroupCount N W * W
  /\ workgroupCount N W * W < N + W
  /\ In (Vec2 x y) (invocationIds W (workgroupCount N W) (workgroupCount N W))
  /\ length (invocationIds W (workgroupCount N W) (workgroupCount N W))
     = Z.to_nat (workgroupCount N W * W * (workgroupCount N W * W)).
Proof.
  intros HW HN Hx Hy. destruct (workgroups_reach N W HW HN) as [Hreach Hleast].
  split; [exact Hreach |]. split; [lia |]. split.
  - apply invocationIds_spec. cbn [vx vy]. lia.
  - unfold invocationIds.
    set (n := workgroupCount N W * W) in *.
    assert (Hline : forall (y0 : Z) (k : list Z),
               length (k ≫= fun x0 => [Vec2 x0 y0]) = length k).
    { intros y0 k. induction k as [| x0 k IHk]; [reflexivity |].
      rewrite bind_cons, length_app, IHk. reflexivity. }
    assert (Hrow : forall l : list Z,
               length (l ≫= fun y0 => seqZ 0 n ≫= fun x0 => [Vec2 x0 y0])
               = (length l * Z.to_nat n)%nat).
    { induction l as [| y0 l IH]; [reflexivity |].
      rewrite bind_cons, length_app, IH, Hline, length_seqZ. cbn [length]. lia. }
    rewrite Hrow, length_seqZ. nia.
Qed.

Lemma X12_dispatch_covers_grid_witness :
  4 <= workgroupCount 4 3 * 3
  /\ workgroupCount 4 3 * 3 < 4 + 3
  /\ In (Vec2 3 3) (invocationIds 3 (workgroupCount 4 3) (workgroupCount 4 3))
  /\ length (invocationIds 3 (workgroupCount 4 3) (workgroupCount 4 3))
     = Z.to_nat (workgroupCount 4 3 * 3 * (workgroupCount 4 3 * 3)).
Proof.
  apply (X12_dispatch_covers_grid 4 3 3 3); lia.
Defined.

(** On a grid whose side divides 2^32, an invocation computes for the
    cell its id wraps to. *)
Lemma invocation_wraps (N x y : Z) (cellStateIn : list Z) :
  0 < N -> N * N <= 2 ^ 32 -> 2 ^ 32 mod N = 0 ->
  SimulationShader.cellIndex (Vec2 N N) (Vec2 x y)
  = SimulationShader.cellIndex (Vec2 N N) (Vec2 (x mod N) (y mod N))
  /\ nextColor (Vec2 N N) cellStateIn (Vec2 x y)
     = nextColor (Vec2 N N) cellStateIn (Vec2 (x mod N) (y mod N)).
Proof.
  intros HN Hfits Hdiv.
  unfold nextColor, SimulationShader.neighbourColors, SimulationShader.cellColor.
  cbn [vx vy].
  rewrite !(cellIndex_eq N HN Hfits), !(u32_mod N) by assumption.
  rewrite !Z.add_mod_idemp_l, !Zminus_mod_idemp_l, !Z.mod_mod by lia.
  split; reflexivity.
Qed.

Lemma transition_cell_overhang (N W : Z) (w : world) (x y : Z) :
  0 < W -> 0 < N -> N * N <= 2 ^ 32 -> 2 ^ 32 mod N = 0 ->
  sized N (device w) -> 0 <= x < N -> 0 <= y < N ->
  getBuf (device (updateGrid N W w)) ((step w + 1) mod 2) !! Z.to_nat (y * N + x)
  = Some (nextColor (Vec2 N N) (getBuf (device w) (step w mod 2)) (Vec2 x y)).
Proof.
  intros HW HN Hfits Hdiv Hsized Hx Hy.
  rewrite updateGrid_device, bindGroupAt_parity. unfold runComputePass.
  destruct (dispatch_buffers N
              {| binding1 := step w mod 2; binding2 := (step w + 1) mod 2 |}
              (invocationIds W (workgroupCount N W) (workgroupCount N W))
              (device w) (parity_distinct (step w))) as [_ Hout].
  cbn [binding1 binding2] in Hout. rewrite Hout. clear Hout.
  apply (stores_lookup
           (fun cell => Z.to_nat (SimulationShader.cellIndex (Vec2 N N) cell))).
  - rewrite (sized_getBuf N) by assumption. nia.
  - exists (Vec2 x y). split.
    + apply invocationIds_spec. destruct (workgroups_reach N W HW HN). cbn. lia.
    + now rewrite (cellIndex_inside N HN Hfits) by assumption.
  - intros [x' y'] _ Hidx.
    destruct (invocation_wraps N x' y' (getBuf (device w) (step w mod 2))
                HN Hfits Hdiv) as [Hi Hv].
    rewrite Hv. rewrite Hi in Hidx.
    pose proof (Z.mod_pos_bound x' N HN). pose proof (Z.mod_pos_bound y' N HN).
    rewrite (cellIndex_inside N HN Hfits) in Hidx by lia.
    assert (Heq : y' mod N * N + x' mod N = y * N + x) by nia.
    destruct (cellIndex_inj N HN Hfits (x' mod N) (y' mod N) x y) as [-> ->];
      [lia | lia | lia | lia | exact Heq |].
    reflexivity.
Qed.

(** X13. On a grid whose side divides 2^32, workgroups of any size do:
    the invocations of the overhanging part of the last workgroups compute
    for the cells their ids wrap to the same values as the invocations of
    those cells, and the buffer the tick writes is the generation of the
    buffer it reads. *)
Theorem X13_overhanging_workgroups (N W : Z) (w : world) :
  0 < W -> 0 < N -> N * N <= 2 ^ 32 -> 2 ^ 32 mod N = 0 ->
  sized N (device w) ->
  getBuf (device (updateGrid N W w)) ((step w + 1) mod 2)
  = generation N (getBuf (device w) (step w mod 2))
  /\ (forall x y : Z,
        SimulationShader.cellIndex (Vec2 N N) (Vec2 x y)
        = SimulationShader.cellIndex (Vec2 N N) (Vec2 (x mod N) (y mod N))
        /\ nextColor (Vec2 N N) (getBuf (device w) (step w mod 2)) (Vec2 x y)
           = nextColor (Vec2 N N) (getBuf (device w) (step w mod 2))
               (Vec2 (x mod N) (y mod N))).
Proof.
  intros HW HN Hfits Hdiv Hsized. split; [| intros x y; now apply invocation_wraps].
  apply list_eq. intros j.
  assert (Hlen : length (getBuf (device (updateGrid N W w)) ((step w + 1) mod 2))
                 = Z.to_nat (N * N))
    by (apply sized_getBuf, (updateGrid_sized N W), Hsized).
  destruct (le_lt_dec (Z.to_nat (N * N)) j) as [Hge | Hlt].
  - rewrite !(proj2 (lookup_ge_None _ _));
      [reflexivity | now rewrite generation_length | now rewrite Hlen].
  - rewrite generation_lookup by exact Hlt.
    assert (Hxy : Z.of_nat j = Z.of_nat j / N * N + Z.of_nat j mod N)
      by (rewrite (Z.div_mod (Z.of_nat j) N) at 1 by lia; lia).
    assert (Hx : 0 <= Z.of_nat j mod N < N) by (apply Z.mod_pos_bound; lia).
    assert (Hy : 0 <= Z.of_nat j / N < N).
    { split; [apply Z.div_pos; lia | apply Z.div_lt_upper_bound; lia]. }
    pose proof (transition_cell_overhang N W w _ _ HW HN Hfits Hdiv Hsized Hx Hy)
      as Hcell.
    now rewrite <- Hxy, Nat2Z.id in Hcell.
Qed.

Lemma X13_overhanging_workgroups_witness :
  getBuf (device (updateGrid 4 3 exampleWorld)) ((step exampleWorld + 1) mod 2)
  = generation 4 (getBuf (device exampleWorld) (step exampleWorld mod 2))
  /\ (forall x y : Z,
        SimulationShader.cellIndex (Vec2 4 4) (Vec2 x y)
        = SimulationShader.cellIndex (Vec2 4 4) (Vec2 (x mod 4) (y mod 4))
        /\ nextColor (Vec2 4 4) (getBuf (device exampleWorld) (step exampleWorld mod 2))
             (Vec2 x y)
           = nextColor (Vec2 4 4)
               (getBuf (device exampleWorld) (step exampleWorld mod 2))
               (Vec2 (x mod 4) (y mod 4))).
Proof.
  apply (X13_overhanging_workgroups 4 3 exampleWorld);
    first [lia | reflexivity | split; reflexivity].
Defined.

(** ** The render side *)

(** X14. On a grid of up to 2^24 cells the float arithmetic of the cell
    shader is exact on the cells: the cell [vertexMain] hands to the
    fragment stage for instance i is (i mod N, i / N), the cell shader's
    [cellIndex] leads it back to i, where the simulation shader's
    [cellIndex] puts that cell, and the quad of instance i in a frame is
    coloured by [fragmentMain] from element i of the buffer: the binary32
    quotients by 255 of its three channels, with alpha 1. *)
Theorem X14_quad_coloured_by_its_cell (N i : Z) (cellState : list Z)
    (corner : Q * Q) :
  0 < N -> N * N <= 2 ^ 24 -> 0 <= i < N * N ->
  let cell :=
    CellShader.outCell
      (CellShader.vertexMain (Vec2 N N) cellState
         {| CellShader.pos := corner; CellShader.instance := i |}) in
  cell = (inject_Z (i mod N), inject_Z (i / N))
  /\ CellShader.cellIndex (Vec2 N N) cell = i
  /\ CellShader.cellIndex (Vec2 N N) cell
     = SimulationShader.cellIndex (Vec2 N N) (Vec2 (i mod N) (i / N))
  /\ CellShader.fragmentMain (Vec2 N N) cellState cell
     = Vec4 (fdiv (inject_Z (red (readBuf cellState i))) 255)
         (fdiv (inject_Z (green (readBuf cellState i))) 255)
         (fdiv (inject_Z (blue (readBuf cellState i))) 255) 1
  /\ (forall quad : quad,
        frameOf N cellState 6 (N * N) !! Z.to_nat i = Some quad ->
        colour quad = CellShader.fragmentMain (Vec2 N N) cellState cell).
Proof.
  intros HN Hfits Hi. cbv zeta.
  unfold CellShader.vertexMain. cbn [CellShader.outCell CellShader.instance].
  rewrite cellOf_exact by assumption.
  assert (Hx : 0 <= i mod N < N) by (apply Z.mod_pos_bound; lia).
  assert (Hy : 0 <= i / N < N).
  { split; [apply Z.div_pos; lia | apply Z.div_lt_upper_bound; lia]. }
  assert (Hi' : i / N * N + i mod N = i)
    by (rewrite (Z.div_mod i N) at 3 by lia; lia).
  assert (Hidx : CellShader.cellIndex (Vec2 N N) (inject_Z (i mod N), inject_Z (i / N))
                 = i)
    by (rewrite cellShader_cellIndex by assumption; exact Hi').
  assert (Hcol : CellShader.fragmentMain (Vec2 N N) cellState
                   (inject_Z (i mod N), inject_Z (i / N))
                 = Vec4 (fdiv (inject_Z (red (readBuf cellState i))) 255)
                     (fdiv (inject_Z (green (readBuf cellState i))) 255)
                     (fdiv (inject_Z (blue (readBuf cellState i))) 255) 1).
  { unfold CellShader.fragmentMain. rewrite Hidx.
    pose proof (channel_nonneg (readBuf cellState i)) as (? & ? & ?).
    pose proof (channel_byte (readBuf cellState i)) as (? & ? & ?).
    fold (red (readBuf cellState i)) (green (readBuf cellState i))
      (blue (readBuf cellState i)).
    now rewrite !f32_integer by lia. }
  split; [reflexivity |]. split; [exact Hidx |]. split; [| split].
  - rewrite Hidx, (cellIndex_inside N HN) by (try assumption; lia). now rewrite Hi'.
  - exact Hcol.
  - intros quad Hquad. unfold frameOf, frame in Hquad.
    rewrite list_lookup_fmap, lookup_seqZ_lt in Hquad by lia.
    cbn [fmap option_fmap option_map] in Hquad.
    apply (inj Some) in Hquad. rewrite <- Hquad. cbn [colour]. rewrite Z.add_0_l, Z2Nat.id by lia.
    now rewrite cellOf_exact by assumption.
Qed.

Lemma X14_quad_coloured_by_its_cell_witness :
  (0 < 4 /\ 4 * 4 <= 2 ^ 24 /\ 0 <= 2 < 4 * 4)
  /\
  let cell :=
    CellShader.outCell
      (CellShader.vertexMain (Vec2 4 4) exampleBuffer
         {| CellShader.pos := (f32 lit_0_7, f32 lit_0_7);
            CellShader.instance := 2 |}) in
  cell = (inject_Z (2 mod 4), inject_Z (2 / 4))
  /\ CellShader.cellIndex (Vec2 4 4) cell = 2
  /\ CellShader.cellIndex (Vec2 4 4) cell
     = SimulationShader.cellIndex (Vec2 4 4) (Vec2 (2 mod 4) (2 / 4))
  /\ CellShader.fragmentMain (Vec2 4 4) exampleBuffer cell
     = Vec4 (fdiv (inject_Z (red (readBuf exampleBuffer 2))) 255)
         (fdiv (inject_Z (green (readBuf exampleBuffer 2))) 255)
         (fdiv (inject_Z (blue (readBuf exampleBuffer 2))) 255) 1
  /\ (forall quad : quad,
        frameOf 4 exampleBuffer 6 (4 * 4) !! Z.to_nat 2 = Some quad ->
        colour quad = CellShader.fragmentMain (Vec2 4 4) exampleBuffer cell).
Proof.
  split; [lia |].
  apply (X14_quad_coloured_by_its_cell 4 2 exampleBuffer (f32 lit_0_7, f32 lit_0_7));
    lia.
Defined.

(** The 256 quotients [f32(c) / 255] of the fragment stage, checked one by
    one: each lies in [0, 1] and within 2^-25 of c / 255. *)
Lemma byte_fraction (c : Z) :
  0 <= c <= 255 ->
  (0 <= fdiv (f32 (inject_Z c)) 255 /\ fdiv (f32 (inject_Z c)) 255 <= 1
   /\ Qabs (fdiv (f32 (inject_Z c)) 255 - inject_Z c / 255) <= 1 # 33554432)%Q.
Proof.
  intros Hc.
  assert (Hall : forallb
                   (fun c => Qle_bool 0 (fdiv (f32 (inject_Z c)) 255)
                             && Qle_bool (fdiv (f32 (inject_Z c)) 255) 1
                             && Qle_bool
                                  (Qabs (fdiv (f32 (inject_Z c)) 255
                                         - inject_Z c / 255))
                                  (1 # 33554432))
                   (seqZ 0 256) = true)
    by (vm_compute; reflexivity).
  rewrite forallb_forall in Hall.
  specialize (Hall c). rewrite !andb_true_iff, !Qle_bool_iff in Hall.
  assert (Hin : In c (seqZ 0 256)) by (apply list_elem_of_In, elem_of_seqZ; lia).
  specialize (Hall Hin). tauto.
Qed.

(** X15. Whatever the buffer holds and whatever cell reaches the fragment
    stage, the colour of a fragment has its three components between 0
    and 1 and alpha 1.  On a grid of up to 2^24 cells, when the value of
    cell i is assembled from three bytes r, g, b, the fragments of
    instance i get the binary32 quotients of r, g and b by 255, each within
    2^-25 of the exact fraction; a zero cell is black. *)
Theorem X15_fragment_colour (N i : Z) (cellState : list Z) (r g b : Z) :
  0 < N -> N * N <= 2 ^ 24 -> 0 <= i < N * N ->
  0 <= r < 256 -> 0 <= g < 256 -> 0 <= b < 256 ->
  readBuf cellState i = r + g * 2 ^ 8 + b * 2 ^ 16 ->
  CellShader.fragmentMain (Vec2 N N) cellState (CellShader.cellOf (Vec2 N N) i)
  = Vec4 (fdiv (inject_Z r) 255) (fdiv (inject_Z g) 255) (fdiv (inject_Z b) 255) 1
  /\ (Qabs (fdiv (inject_Z r) 255 - inject_Z r / 255) <= 1 # 33554432
      /\ Qabs (fdiv (inject_Z g) 255 - inject_Z g / 255) <= 1 # 33554432
      /\ Qabs (fdiv (inject_Z b) 255 - inject_Z b / 255) <= 1 # 33554432)%Q
  /\ (forall (grid : vec2) (cellState' : list Z) (cell' : Q * Q),
        (0 <= px (CellShader.fragmentMain grid cellState' cell') <= 1
         /\ 0 <= py (CellShader.fragmentMain grid cellState' cell') <= 1
         /\ 0 <= pz (CellShader.fragmentMain grid cellState' cell') <= 1)%Q
        /\ pw (CellShader.fragmentMain grid cellState' cell') = 1%Q)
  /\ (forall cellState0 : list Z,
        readBuf cellState0 i = 0 ->
        CellShader.fragmentMain (Vec2 N N) cellState0 (CellShader.cellOf (Vec2 N N) i)
        = Vec4 0 0 0 1).
Proof.
  intros HN Hfits Hi Hr Hg Hb Hv.
  pose proof (byte_fraction r ltac:(lia)) as (_ & _ & Br).
  pose proof (byte_fraction g ltac:(lia)) as (_ & _ & Bg).
  pose proof (byte_fraction b ltac:(lia)) as (_ & _ & Bb).
  rewrite f32_integer in Br, Bg, Bb by lia.
  assert (Hx : 0 <= i mod N < N) by (apply Z.mod_pos_bound; lia).
  assert (Hy : 0 <= i / N < N).
  { split; [apply Z.div_pos; lia | apply Z.div_lt_upper_bound; lia]. }
  assert (Hi' : i / N * N + i mod N = i)
    by (rewrite (Z.div_mod i N) at 3 by lia; lia).
  assert (Hidx : CellShader.cellIndex (Vec2 N N) (CellShader.cellOf (Vec2 N N) i) = i)
    by (rewrite cellOf_exact, cellShader_cellIndex by assumption; exact Hi').
  split; [| split; [| split]].
  - unfold CellShader.fragmentMain. rewrite Hidx, Hv.
    destruct (channels_of_bytes r g b Hr Hg Hb) as (Er & Eg & Eb).
    unfold red, green, blue in Er, Eg, Eb. rewrite Er, Eg, Eb.
    now rewrite !f32_integer by lia.
  - tauto.
  - intros grid cellState' cell'. unfold CellShader.fragmentMain. cbn [px py pz pw].
    set (v := readBuf cellState' (CellShader.cellIndex grid cell')).
    pose proof (channel_nonneg v) as (? & ? & ?).
    pose proof (channel_byte v) as (? & ? & ?).
    split; [| reflexivity].
    fold (red v) (green v) (blue v).
    pose proof (byte_fraction (red v) ltac:(lia)).
    pose proof (byte_fraction (green v) ltac:(lia)).
    pose proof (byte_fraction (blue v) ltac:(lia)).
    tauto.
  - intros cellState0 H0. unfold CellShader.fragmentMain. rewrite Hidx, H0.
    vm_compute. reflexivity.
Qed.

Lemma X15_fragment_colour_witness :
  CellShader.fragmentMain (Vec2 4 4) [0; 0; 5592405] (CellShader.cellOf (Vec2 4 4) 2)
  = Vec4 (fdiv (inject_Z 85) 255) (fdiv (inject_Z 85) 255) (fdiv (inject_Z 85) 255) 1
  /\ (Qabs (fdiv (inject_Z 85) 255 - inject_Z 85 / 255) <= 1 # 33554432
      /\ Qabs (fdiv (inject_Z 85) 255 - inject_Z 85 / 255) <= 1 # 33554432
      /\ Qabs (fdiv (inject_Z 85) 255 - inject_Z 85 / 255) <= 1 # 33554432)%Q
  /\ (forall (grid : vec2) (cellState' : list Z) (cell' : Q * Q),
        (0 <= px (CellShader.fragmentMain grid cellState' cell') <= 1
         /\ 0 <= py (CellShader.fragmentMain grid cellState' cell') <= 1
         /\ 0 <= pz (CellShader.fragmentMain grid cellState' cell') <= 1)%Q
        /\ pw (CellShader.fragmentMain grid cellState' cell') = 1%Q)
  /\ (forall cellState0 : list Z,
        readBuf cellState0 2 = 0 ->
        CellShader.fragmentMain (Vec2 4 4) cellState0 (CellShader.cellOf (Vec2 4 4) 2)
        = Vec4 0 0 0 1).
Proof.
  apply (X15_fragment_colour 4 2 [0; 0; 5592405] 85 85 85);
    first [lia | vm_compute; reflexivity].
Defined.

(** A third is not a binary32 number: the component of a channel at 85 is
    11184811 / 2^25, while the channels at 0 and at 255 give 0 and 1. *)
Remark fragment_thirds :
  fdiv (inject_Z 85) 255 = (11184811 # 33554432)%Q
  /\ fdiv (inject_Z 0) 255 = 0%Q /\ fdiv (inject_Z 255) 255 = 1%Q.
Proof. repeat split. Qed.

(** X16. On a grid of up to 2^24 cells, with the rounding of binary32,
    the quads of two cells of the grid never share a point, and every
    point of a quad lies strictly inside the visible square [-1,1]²: cells
    are drawn apart from each other and nothing of a cell is clipped. *)
Theorem X16_quads_disjoint_and_visible (N x y x' y' : Z) (q : Q * Q) :
  0 < N -> N * N <= 2 ^ 24 ->
  0 <= x < N -> 0 <= y < N -> 0 <= x' < N -> 0 <= y' < N ->
  covers (cellQuad (Vec2 N N) (y * N + x)) q = true ->
  (covers (cellQuad (Vec2 N N) (y' * N + x')) q = true -> x' = x /\ y' = y)
  /\ (-(1) < fst q /\ fst q < 1 /\ -(1) < snd q /\ snd q < 1)%Q.
Proof.
  intros HN Hfits Hx Hy Hx' Hy' Hq.
  apply quad_rectangle in Hq; try assumption.
  destruct Hq as (Hxl & Hxh & Hyl & Hyh). split.
  - intros Hq'. apply quad_rectangle in Hq'; try assumption.
    destruct Hq' as (Hxl' & Hxh' & Hyl' & Hyh').
    pose proof (quad_axis N x x' (fst q) HN Hfits Hx Hx' Hxl Hxh').
    pose proof (quad_axis N x' x (fst q) HN Hfits Hx' Hx Hxl' Hxh).
    pose proof (quad_axis N y y' (snd q) HN Hfits Hy Hy' Hyl Hyh').
    pose proof (quad_axis N y' y (snd q) HN Hfits Hy' Hy Hyl' Hyh).
    lia.
  - pose proof (quad_visible_axis N x (fst q) HN Hfits Hx Hxl Hxh).
    pose proof (quad_visible_axis N y (snd q) HN Hfits Hy Hyl Hyh).
    tauto.
Qed.

Lemma X16_quads_disjoint_and_visible_witness :
  (covers (cellQuad (Vec2 4 4) (2 * 4 + 3)) ((-1 # 4)%Q, (-3 # 4)%Q) = true ->
   3 = 1 /\ 2 = 0)
  /\ (-(1) < fst ((-1 # 4)%Q, (-3 # 4)%Q) /\ fst ((-1 # 4)%Q, (-3 # 4)%Q) < 1
      /\ -(1) < snd ((-1 # 4)%Q, (-3 # 4)%Q) /\ snd ((-1 # 4)%Q, (-3 # 4)%Q) < 1)%Q.
Proof.
  apply (X16_quads_disjoint_and_visible 4 1 0 3 2 ((-1 # 4)%Q, (-3 # 4)%Q));
    first [lia | vm_compute; reflexivity].
Defined.

(** ** Seeding and frames *)

(** X17. A seeded cell is non-zero exactly when its sample is below the
    literal 0.12; it holds one of the four values 0, 255, 255<<8, 255<<16,
    so a seeded live cell has one channel at 255 and the two others at 0. *)
Theorem X17_seeded_alive_below_last_threshold (r : Q) :
  (seedCell r <> 0 <-> (r < lit_0_12)%Q)
  /\ (seedCell r = 0 \/ seedCell r = 255 \/ seedCell r = Z.shiftl 255 8
      \/ seedCell r = Z.shiftl 255 16)
  /\ (seedCell r <> 0 ->
      red (seedCell r) + green (seedCell r) + blue (seedCell r) = 255
      /\ red (seedCell r) * green (seedCell r) = 0
      /\ red (seedCell r) * blue (seedCell r) = 0
      /\ green (seedCell r) * blue (seedCell r) = 0).
Proof.
  assert (H48 : (lit_0_04 < lit_0_08)%Q) by reflexivity.
  assert (H812 : (lit_0_08 < lit_0_12)%Q) by reflexivity.
  rewrite seedCell_cases.
  destruct (Qlt_bool r lit_0_04) eqn:E4.
  { apply Qlt_bool_iff in E4.
    split; [split; [intros _; lra | discriminate] |].
    split; [right; left; reflexivity | intros _; vm_compute; tauto]. }
  destruct (Qlt_bool r lit_0_08) eqn:E8.
  { apply Qlt_bool_iff in E8.
    split; [split; [intros _; lra | discriminate] |].
    split; [right; right; left; reflexivity | intros _; vm_compute; tauto]. }
  destruct (Qlt_bool r lit_0_12) eqn:E12.
  { apply Qlt_bool_iff in E12.
    split; [split; [intros _; exact E12 | discriminate] |].
    split; [right; right; right; reflexivity | intros _; vm_compute; tauto]. }
  split; [split; [intros H; now destruct H | intros Hlt] |].
  - apply Qlt_bool_iff in Hlt. congruence.
  - split; [left; reflexivity | intros H; now destruct H].
Qed.

(** X18. Every tick presents one frame: after k ticks from the seeded
    device k frames have been presented, each made of one quad per cell of
    the grid, each quad with the six corners of two triangles and a colour
    of alpha 1. *)
Theorem X18_one_frame_per_tick (N W : Z) (random : nat -> Q) (k : nat) :
  length (presented (ticks N W k (initialWorld N random))) = k
  /\ Forall (fun f : frame =>
               length f = Z.to_nat (N * N)
               /\ Forall (fun quad => length (corners quad) = 6%nat
                                      /\ pw (colour quad) = 1%Q) f)
       (presented (ticks N W k (initialWorld N random))).
Proof.
  induction k as [| k [IHlen IHall]].
  - split; [reflexivity | apply Forall_nil; exact I].
  - change (ticks N W (S k) (initialWorld N random))
      with (updateGrid N W (ticks N W k (initialWorld N random))).
    rewrite updateGrid_presented, draw_frameOf. split.
    + rewrite length_app, IHlen. cbn [length]. lia.
    + apply Forall_app. split; [exact IHall |].
      apply Forall_cons. split; [| apply Forall_nil; exact I].
      unfold frameOf. split.
      * now rewrite length_fmap, length_seqZ.
      * apply Forall_fmap, Forall_forall. intros instance _.
        cbn [corners colour]. split; reflexivity.
Qed.

(** X19. Three neighbours of one colour, with the five others dead, give
    birth to exactly that colour, wherever the three sit among the eight:
    the bias and the division by 3 cancel on every channel. *)
Theorem X19_one_colour_breeds_true (c : Z) (colors : list Z) :
  packed c -> colors ≡ₚ [c; c; c; 0; 0; 0; 0; 0] ->
  SimulationShader.averageColor colors = c.
Proof.
  intros Hc Hperm.
  assert (Hlen : length colors = 8%nat) by now rewrite Hperm.
  rewrite averageColor_spec, specAverage_channels by assumption.
  rewrite !(sumOver_perm _ _ _ Hperm). cbn [sumOver foldr].
  change (red 0) with 0. change (green 0) with 0. change (blue 0) with 0.
  pose proof (channel_nonneg c) as (? & ? & ?).
  pose proof (channel_byte c) as (? & ? & ?).
  assert (Hthird : forall z, (z + (z + (z + (0 + (0 + (0 + (0 + (0 + 0))))))) + 2) / 3 = z).
  { intros z. symmetry. apply (Z.div_unique _ _ _ 2); lia. }
  rewrite !Hthird, !Z.mod_small by lia.
  symmetry. now apply packed_channels.
Qed.

Lemma X19_one_colour_breeds_true_witness :
  SimulationShader.averageColor [0; 1193046; 0; 0; 1193046; 0; 0; 1193046] = 1193046.
Proof.
  apply (X19_one_colour_breeds_true 1193046 [0; 1193046; 0; 0; 1193046; 0; 0; 1193046]);
    first [unfold packed; lia | compute_done].
Defined.
